(** * ShaderGen: the shader generator of p5.js (src/webgl/ShaderGen.js)

    A shallow embedding of the operator rewriter, the node graph, the
    type rules, the temporary-variable planner and the code generator,
    with the properties of the natural-language specification stated
    over it.

    JavaScript objects live in a store (a list indexed by address), so
    that the mutation of shared nodes ([usedIn], [temporaryVariable])
    and of the render context is the one the source performs. *)

From Stdlib Require Import Ascii ZArith QArith Qround Qabs.
From Stdlib Require Import DecimalString DecimalN DecimalZ DecimalFacts.
From stdpp Require Import base option list strings gmap.

(** ** Strings *)

Module Str.

(** [String.prototype.trim] on the white space of ASCII. *)
Definition isSpace (c : ascii) : bool :=
  let n := nat_of_ascii c in
  bool_decide (n = 32 ∨ (9 ≤ n ∧ n ≤ 13))%nat.

Fixpoint trimStart (s : string) : string :=
  match s with
  | String c s' => if isSpace c then trimStart s' else s
  | EmptyString => EmptyString
  end.

Definition trim (s : string) : string :=
  String.rev (trimStart (String.rev (trimStart s))).

(** [Array.prototype.join]. *)
Fixpoint join (sep : string) (l : list string) : string :=
  match l with
  | [] => ""
  | [x] => x
  | x :: rest => x +:+ sep +:+ join sep rest
  end.

(** [s.replace(pat, "")] for a one-character pattern: the first
    occurrence is removed. *)
Fixpoint removeFirst (c : ascii) (s : string) : string :=
  match s with
  | EmptyString => EmptyString
  | String d s' => if Ascii.eqb c d then s' else String d (removeFirst c s')
  end.

Definition isDigit (c : ascii) : bool :=
  let n := nat_of_ascii c in bool_decide (48 ≤ n ∧ n ≤ 57)%nat.

Fixpoint allDigits (s : string) : bool :=
  match s with
  | EmptyString => true
  | String c s' => isDigit c && allDigits s'
  end.

Fixpoint zeros (n : nat) : string :=
  match n with
  | O => ""
  | S n' => String "0" (zeros n')
  end.

(** [s.slice(0, n)] and [s.slice(n)]. *)
Fixpoint take (n : nat) (s : string) : string :=
  match n, s with
  | S n', String c s' => String c (take n' s')
  | _, _ => ""
  end.

Fixpoint drop (n : nat) (s : string) : string :=
  match n, s with
  | S n', String _ s' => drop n' s'
  | _, _ => s
  end.

(** [s.indexOf(c)] and [s.lastIndexOf(c)] for a one-character
    pattern: [-1] when absent. *)
Fixpoint indexOf (c : ascii) (s : string) : Z :=
  match s with
  | EmptyString => (-1)%Z
  | String d s' =>
      if Ascii.eqb c d then 0%Z
      else let i := indexOf c s' in
           if (i <? 0)%Z then (-1)%Z else (i + 1)%Z
  end.

Fixpoint lastIndexOf (c : ascii) (s : string) : Z :=
  match s with
  | EmptyString => (-1)%Z
  | String d s' =>
      let i := lastIndexOf c s' in
      if (0 <=? i)%Z then (i + 1)%Z
      else if Ascii.eqb c d then 0%Z else (-1)%Z
  end.

(** [s.slice(start, end)]: a negative index counts from the end, and
    both are clamped to the string. *)
Definition clamp (len i : Z) : nat :=
  Z.to_nat (if (i <? 0)%Z then Z.max (len + i) 0 else Z.min i len).

(** [s.includes(t)]. *)
Fixpoint includes (t s : string) : bool :=
  String.prefix t s ||
  match s with
  | EmptyString => false
  | String _ s' => includes t s'
  end.

Definition slice (start end_ : Z) (s : string) : string :=
  let len := Z.of_nat (String.length s) in
  let from := clamp len start in
  let to := clamp len end_ in
  take (to - from) (drop from s).

End Str.

(** ** Numbers

    A finite JavaScript number is modelled by its exact rational value.
    [NaN], the infinities and the sign of zero are not represented. *)

Module Num.

(** Decimal digits of a natural number, as [Number::toString] prints
    an integer. *)
Definition decimalN (n : N) : string := NilZero.string_of_uint (N.to_uint n).

Definition decimalZ (z : Z) : string := NilZero.string_of_int (Z.to_int z).

Definition decimalNat (n : nat) : string := decimalN (N.of_nat n).

(** [Number::toString] of an integer-valued number.  Up to [2^53] every
    integer is a number and prints with all its digits; beyond, the
    engine prints the shortest digits that round-trip (and an exponent
    from [10^21] on), which the embedding does not follow. *)
Definition maxSafe : Z := 2 ^ 53.

Definition toStringInteger (z : Z) : option string :=
  if (Z.abs z <=? maxSafe)%Z then Some (decimalZ z) else None.

(** [Math.floor]. *)
Definition floor (x : Q) : Z := Qfloor x.

(** [Math.trunc]: rounding towards zero. *)
Definition trunc (x : Q) : Z := Z.quot (Qnum x) (Zpos (Qden x)).

(** The integer [n] for which [n / 10^4 - x] is closest to zero, the
    larger one on a tie ([x] non-negative). *)
Definition scaled4 (x : Q) : N :=
  Z.to_N (Qfloor (x * 10000 + (1 # 2))).

(** Steps 9.b-9.c of [Number.prototype.toFixed] with [f = 4]: pad the
    digits with zeros up to [f + 1] characters and put the point
    before the last [f] of them. *)
Definition pointBeforeLast4 (m : string) : string :=
  let k := String.length m in
  let m := if bool_decide (k ≤ 4)%nat then Str.zeros (5 - k) +:+ m else m in
  let k := String.length m in
  Str.take (k - 4) m +:+ "." +:+ Str.drop (k - 4) m.

(** [x.toFixed(4)].  From [10^21] on the engine answers with
    [Number::toString] in exponent notation: not followed ([None]). *)
Definition toFixed4 (x : Q) : option string :=
  let s := if Qle_bool 0 x then "" else "-" in
  let x := Qabs x in
  if Qle_bool (10 ^ 21) x then None
  else Some (s +:+ pointBeforeLast4 (decimalN (scaled4 x))).

End Num.

(** ** Values, nodes and the store *)

(** Address of a node object in the store. *)
Definition ref := nat.

(** The JavaScript values that reach the node API. *)
Inductive Value :=
| VUndefined
| VString (s : string)
| VNumber (q : Q)
| VNode (r : ref).

(** The [args] of a function call node: one value, or an array. *)
Inductive Args :=
| ArgsValue (v : Value)
| ArgsArray (l : list Value).

(** The fields each class adds to those of [BaseNode].  [members] holds
    the properties set by name ([this[component] = ...]). *)
Inductive Fields :=
| IntNode (x : Value)
| FloatNode (x : Value)
| VectorNode (components : list string) (members : gmap string ref)
| FunctionCallNode (name : Value) (args : Args)
| VariableNode (name : Value) (members : gmap string ref)
| ComponentNode (parent : Value) (component : Value)
| BinaryOperatorNode (op : option string) (a b : ref)
| ModulusNode (a b : ref).

(** A node object: the fields of [BaseNode] and those of its class.
    [type] is a string or [undefined]. *)
Record Node := mkNode {
  type : option string;
  isInternal : bool;
  usedIn : list ref;
  dependsOn : list ref;
  srcLine : option string;
  temporaryVariable : option string;
  fields : Fields
}.

(** The render context of [resetGLSLContext]. *)
Record Context := mkContext {
  id : nat;
  declarations : list string
}.

(** What a run reads and writes: the node objects, the context object
    in use, and the lines of [e.stack] that the engine would report at
    the next construction (an input of the environment). *)
Record Store := mkStore {
  nodes : list Node;
  context : Context;
  uniforms : gmap string Value;
  functions : gmap string string;
  stack : list string
}.

Definition setNodes (f : list Node → list Node) (σ : Store) : Store :=
  mkStore (f (nodes σ)) (context σ) (uniforms σ) (functions σ) (stack σ).

Definition setContext (c : Context) (σ : Store) : Store :=
  mkStore (nodes σ) c (uniforms σ) (functions σ) (stack σ).

Definition setUniforms (f : gmap string Value → gmap string Value) (σ : Store) : Store :=
  mkStore (nodes σ) (context σ) (f (uniforms σ)) (functions σ) (stack σ).

Definition setFunctions (f : gmap string string → gmap string string) (σ : Store) : Store :=
  mkStore (nodes σ) (context σ) (uniforms σ) (f (functions σ)) (stack σ).

(** ** Computations *)

(** How a call ends: it returns, it throws (the store keeps what was
    written before), it leaves what the embedding follows (a dangling
    address, a number out of range), or the recursion budget ran out. *)
Inductive Outcome (A : Type) :=
| Done (a : A) (σ : Store)
| Throws (e : string) (σ : Store)
| Stuck (why : string)
| OutOfFuel.

Arguments Done {A} a σ.
Arguments Throws {A} e σ.
Arguments Stuck {A} why.
Arguments OutOfFuel {A}.

Definition M (A : Type) : Type := Store → Outcome A.

Definition ret {A} (a : A) : M A := λ σ, Done a σ.

Definition bind {A B} (m : M A) (k : A → M B) : M B :=
  λ σ, match m σ with
       | Done a σ' => k a σ'
       | Throws e σ' => Throws e σ'
       | Stuck why => Stuck why
       | OutOfFuel => OutOfFuel
       end.

Declare Scope js_scope.
Delimit Scope js_scope with js.
Notation "'let*' x ':=' m 'in' k" := (bind m (λ x, k))
  (at level 10, x name, m at level 100, k at level 200) : js_scope.
Notation "m ';;' k" := (bind m (λ _, k))
  (at level 100, k at level 200, right associativity) : js_scope.
Local Open Scope js_scope.

Definition throw {A} (e : string) : M A := λ σ, Throws e σ.
Definition stuck {A} (why : string) : M A := λ _, Stuck why.
Definition get : M Store := λ σ, Done σ σ.
Definition update (f : Store → Store) : M unit := λ σ, Done tt (f σ).

Definition TypeError : string := "TypeError".

(** Read and write the object at an address. *)
Definition getNode (r : ref) : M Node :=
  λ σ, match nodes σ !! r with
       | Some n => Done n σ
       | None => Stuck "dangling address"
       end.

Definition updNode (r : ref) (f : Node → Node) : M unit :=
  let* n := getNode r in
  update (setNodes (λ ns, <[r := f n]> ns)).

(** [new]: the object gets the next free address. *)
Definition alloc (n : Node) : M ref :=
  λ σ, Done (length (nodes σ)) (setNodes (λ ns, ns ++ [n]) σ).

Definition liftOption {A} (why : string) (o : option A) : M A :=
  match o with Some a => ret a | None => stuck why end.

(** ** Helper functions of the source *)

(** [`${v}`] for the values that are printed as names. *)
Definition toStr (v : option string) : string := default "undefined" v.

Definition isShaderNode (v : Value) : bool :=
  match v with VNode _ => true | _ => false end.

Definition hasType (t : string) (n : Node) : bool := bool_decide (type n = Some t).

Definition isIntNodeN (n : Node) : bool := hasType "int" n.
Definition isFloatNodeN (n : Node) : bool := hasType "float" n.
Definition isVectorNodeN (n : Node) : bool :=
  hasType "vec2" n || hasType "vec3" n || hasType "vec4" n.

Definition isBinaryOperatorNodeN (n : Node) : bool :=
  match fields n with
  | BinaryOperatorNode _ _ _ | ModulusNode _ _ => true
  | _ => false
  end.

(** [isVariableNode]: a variable, a component, or any node whose
    [temporaryVariable] is defined. *)
Definition isVariableNodeN (n : Node) : bool :=
  match fields n with
  | VariableNode _ _ | ComponentNode _ _ => true
  | _ => bool_decide (temporaryVariable n ≠ None)
  end.

(** The predicates on an arbitrary value: false on what is not a node. *)
Definition onNode (p : Node → bool) (v : Value) : M bool :=
  match v with
  | VNode r => let* n := getNode r in ret (p n)
  | _ => ret false
  end.

Definition isIntNode := onNode isIntNodeN.
Definition isFloatNode := onNode isFloatNodeN.
Definition isVectorNode := onNode isVectorNodeN.
Definition isBinaryOperatorNode := onNode isBinaryOperatorNodeN.

(** ** Construction of nodes *)

Definition setType (t : option string) (n : Node) : Node :=
  mkNode t (isInternal n) (usedIn n) (dependsOn n) (srcLine n)
         (temporaryVariable n) (fields n).

Definition pushUsedIn (user : ref) (n : Node) : Node :=
  mkNode (type n) (isInternal n) (usedIn n ++ [user]) (dependsOn n) (srcLine n)
         (temporaryVariable n) (fields n).

Definition setTemporaryVariable (t : string) (n : Node) : Node :=
  mkNode (type n) (isInternal n) (usedIn n) (dependsOn n) (srcLine n)
         (Some t) (fields n).

Definition setMember (k : string) (r : ref) (n : Node) : Node :=
  mkNode (type n) (isInternal n) (usedIn n) (dependsOn n) (srcLine n)
         (temporaryVariable n)
         (match fields n with
          | VectorNode cs ms => VectorNode cs (<[k := r]> ms)
          | VariableNode nm ms => VariableNode nm (<[k := r]> ms)
          | f => f
          end).

(** The stack capture of the [BaseNode] constructor: for a node that is
    not internal, line 5 of the stack (line 4 for a binary operator
    node), trimmed. *)
Definition captureSrcLine (isInternal binary : bool) : M (option string) :=
  if isInternal then ret None
  else
    let* σ := get in
    match stack σ !! (if binary then 4 else 5)%nat with
    | Some l => ret (Some (Str.trim l))
    | None => throw TypeError
    end.

(** A default parameter [x = 0] takes over when the argument is
    [undefined]. *)
Definition defaultZero (v : Value) : Value :=
  match v with VUndefined => VNumber 0 | _ => v end.

Definition new_IntNode (x : Value) (isInternal : bool) : M ref :=
  let* line := captureSrcLine isInternal false in
  alloc (mkNode (Some "int") isInternal [] [] line None (IntNode (defaultZero x))).

Definition new_FloatNode (x : Value) (isInternal : bool) : M ref :=
  let* line := captureSrcLine isInternal false in
  alloc (mkNode (Some "float") isInternal [] [] line None (FloatNode (defaultZero x))).

Definition axes : list string := ["x"; "y"; "z"; "w"].

(** [components.forEach((component, i) => this[component] =
    new FloatNode(values[i], true))]. *)
Fixpoint addVectorMembers (this : ref) (components : list string)
    (values : list Value) : M unit :=
  match components, values with
  | c :: cs, v :: vs =>
      let* r := new_FloatNode v true in
      updNode this (setMember c r) ;;
      addVectorMembers this cs vs
  | _, _ => ret tt
  end.

Definition new_VectorNode (values : list Value) (type : option string)
    (isInternal : bool) : M ref :=
  let* line := captureSrcLine isInternal false in
  let components := take (length values) axes in
  let* this := alloc (mkNode None isInternal [] [] line None
                             (VectorNode components ∅)) in
  addVectorMembers this components values ;;
  updNode this (setType type) ;;
  ret this.

Definition new_FunctionCallNode (name : Value) (args : Args)
    (type : option string) (isInternal : bool) : M ref :=
  let* line := captureSrcLine isInternal false in
  alloc (mkNode type isInternal [] [] line None (FunctionCallNode name args)).

Definition new_ComponentNode (parent component : Value) (isInternal : bool) : M ref :=
  let* line := captureSrcLine isInternal false in
  alloc (mkNode (Some "float") isInternal [] [] line None
                (ComponentNode parent component)).

(** [VariableNode.addComponent]. *)
Definition addComponent (this : ref) (componentName : string) : M unit :=
  let* r := new_ComponentNode (VNode this) (VString componentName) true in
  updNode this (setMember componentName r).

(** The table [options] of [autoAddVectorComponents], with
    [options[this.type] || []]. *)
Definition options (t : option string) : list string :=
  match t with
  | Some "vec2" => ["x"; "y"]
  | Some "vec3" => ["x"; "y"; "z"]
  | Some "vec4" => ["x"; "y"; "z"; "w"]
  | _ => []
  end.

Fixpoint addComponents (this : ref) (componentNames : list string) : M unit :=
  match componentNames with
  | [] => ret tt
  | c :: cs => addComponent this c ;; addComponents this cs
  end.

Definition autoAddVectorComponents (this : ref) : M unit :=
  let* n := getNode this in
  addComponents this (options (type n)).

Definition new_VariableNode (name : Value) (type : option string)
    (isInternal : bool) : M ref :=
  let* line := captureSrcLine isInternal false in
  let* this := alloc (mkNode type isInternal [] [] line None
                             (VariableNode name ∅)) in
  autoAddVectorComponents this ;;
  ret this.

(** ** Type rules *)

Definition Incompatible : string := "Incompatible types for binary operator".

(** [BinaryOperatorNode.determineType] on the two operand objects: the
    type, or the message of the error thrown. *)
Definition determineTypeOf (a b : Node) : option string + string :=
  if bool_decide (type a = type b) then inl (type a)
  else if isVectorNodeN a && isFloatNodeN b then inl (type a)
  else if isVectorNodeN b && isFloatNodeN a then inl (type b)
  else if (isFloatNodeN a && isIntNodeN b) || (isIntNodeN a && isFloatNodeN b)
       then inl (Some "float")
  else inr Incompatible.

Definition operands (n : Node) : option (ref * ref) :=
  match fields n with
  | BinaryOperatorNode _ a b | ModulusNode a b => Some (a, b)
  | _ => None
  end.

Definition determineType (this : ref) : M (option string) :=
  let* n := getNode this in
  let* ab := liftOption "no operands" (operands n) in
  let* a := getNode ab.1 in
  let* b := getNode ab.2 in
  match determineTypeOf a b with
  | inl t => ret t
  | inr e => throw e
  end.

(** The constructor shared by [BinaryOperatorNode] and [ModulusNode]
    ([mkFields] tells which): both operands record the new node in
    [usedIn], then the type is computed.  An operand that is not an
    object has no [usedIn] to push to; when that is the right one, the
    object abandoned by the throw is already recorded by the left one
    (which stands in for the missing right operand in its fields). *)
Definition new_BinaryNode (mkFields : ref → ref → Fields) (a b : Value)
    (isInternal : bool) : M ref :=
  let* line := captureSrcLine isInternal true in
  match a with
  | VNode ra =>
      let rb := match b with VNode rb => rb | _ => ra end in
      let* this := alloc (mkNode None isInternal [] [] line None (mkFields ra rb)) in
      updNode ra (pushUsedIn this) ;;
      match b with
      | VNode rb =>
          updNode rb (pushUsedIn this) ;;
          let* t := determineType this in
          updNode this (setType t) ;;
          ret this
      | _ => throw TypeError
      end
  | _ => throw TypeError
  end.

Definition new_BinaryOperatorNode (a b : Value) (operator : option string)
    (isInternal : bool) : M ref :=
  new_BinaryNode (BinaryOperatorNode operator) a b isInternal.

Definition new_ModulusNode (a b : Value) : M ref :=
  new_BinaryNode ModulusNode a b false.

(** [values[i]] for the characters of a string. *)
Fixpoint chars (s : string) : list Value :=
  match s with
  | EmptyString => []
  | String c s' => VString (String c EmptyString) :: chars s'
  end.

(** [new this.constructor(other)] for a value that is neither a node nor
    a number: the class of [this] is built from that one argument. *)
Definition constructSame (this : Node) (other : Value) : M ref :=
  match fields this with
  | IntNode _ => new_IntNode other false
  | FloatNode _ => new_FloatNode other false
  | VectorNode _ _ =>
      match other with
      | VString s => new_VectorNode (chars s) None false
      | _ => captureSrcLine false false ;; throw TypeError
      end
  | FunctionCallNode _ _ => new_FunctionCallNode other (ArgsValue VUndefined) None false
  | VariableNode _ _ => new_VariableNode other None false
  | ComponentNode _ _ => new_ComponentNode other VUndefined false
  | BinaryOperatorNode _ _ _ => new_BinaryOperatorNode other VUndefined None false
  | ModulusNode _ _ => new_ModulusNode other VUndefined
  end.

(** [BaseNode.enforceType]. *)
Definition enforceType (this : ref) (other : Value) : M ref :=
  let* n := getNode this in
  match other with
  | VNode r =>
      let* o := getNode r in
      if (isFloatNodeN n || isVectorNodeN n) && isIntNodeN o
      then new_FloatNode other false
      else ret r
  | VNumber _ =>
      if isIntNodeN n then new_IntNode other false
      else new_FloatNode other false
  | _ => constructSame n other
  end.

(** The arithmetic methods of [BaseNode]. *)
Definition add (this : ref) (other : Value) : M ref :=
  let* b := enforceType this other in
  new_BinaryOperatorNode (VNode this) (VNode b) (Some "+") false.

Definition sub (this : ref) (other : Value) : M ref :=
  let* b := enforceType this other in
  new_BinaryOperatorNode (VNode this) (VNode b) (Some "-") false.

Definition mult (this : ref) (other : Value) : M ref :=
  let* b := enforceType this other in
  new_BinaryOperatorNode (VNode this) (VNode b) (Some "*") false.

Definition div (this : ref) (other : Value) : M ref :=
  let* b := enforceType this other in
  new_BinaryOperatorNode (VNode this) (VNode b) (Some "/") false.

Definition mod_ (this : ref) (other : Value) : M ref :=
  let* b := enforceType this other in
  new_ModulusNode (VNode this) (VNode b).

Definition sin (this : ref) : M ref :=
  new_FunctionCallNode (VString "sin") (ArgsValue (VNode this)) (Some "float") false.

Definition cos (this : ref) : M ref :=
  new_FunctionCallNode (VString "cos") (ArgsValue (VNode this)) (Some "float") false.

Definition radians (this : ref) : M ref :=
  new_FunctionCallNode (VString "radians") (ArgsValue (VNode this)) (Some "float") false.

Definition abs (this : ref) : M ref :=
  let* n := getNode this in
  new_FunctionCallNode (VString "abs") (ArgsValue (VNode this)) (type n) false.

(** The methods that are not written yet ([ceil], [max], [min],
    [round], [roundEven], [sqrt], [log], [exp]): a function call node
    with no name, no argument and no type. *)
Module Unwritten.

Definition ceil (this : ref) : M ref :=
  new_FunctionCallNode VUndefined (ArgsValue VUndefined) None false.

Definition max := ceil.
Definition min := ceil.
Definition round := ceil.
Definition roundEven := ceil.
Definition sqrt := ceil.
Definition log := ceil.
Definition exp := ceil.

End Unwritten.

(** ** Temporary-variable planner and code generator *)

(** The line feed of the template strings. *)
Definition nl : string := String (ascii_of_nat 10) EmptyString.

(** Truthiness of a property that is a string or [undefined]. *)
Definition truthy (o : option string) : bool :=
  match o with
  | Some s => negb (String.eqb s "")
  | None => false
  end.

Definition typeValue (t : option string) : Value :=
  match t with Some s => VString s | None => VUndefined end.

(** [`${v}`]: the string conversion of a value. *)
Definition template (v : Value) : M string :=
  match v with
  | VUndefined => ret "undefined"
  | VString s => ret s
  | VNumber q =>
      if Qeq_bool (inject_Z (Num.floor q)) q
      then liftOption "number out of range" (Num.toStringInteger (Num.floor q))
      else stuck "string conversion of a fraction"
  | VNode _ => ret "[object Object]"
  end.

(** [BaseNode.useTempVar]. *)
Definition useTempVar (n : Node) : bool :=
  if isInternal n || isVariableNodeN n then false
  else
    let score := 0%nat in
    let score := (score + if isBinaryOperatorNodeN n then 1 else 0)%nat in
    let score := (score + (if isVectorNodeN n then 1 else 0) * 2)%nat in
    let score := (score + length (usedIn n))%nat in
    (3 <? score)%nat.

(** [context.getNextID()]: [return this.id++]. *)
Definition getNextID : M nat :=
  let* σ := get in
  update (setContext (mkContext (S (id (context σ))) (declarations (context σ)))) ;;
  ret (id (context σ)).

(** [context.declarations.push(line)]. *)
Definition pushDeclaration (line : string) : M unit :=
  let* σ := get in
  update (setContext (mkContext (id (context σ)) (declarations (context σ) ++ [line]))).

(** [this.name], defined on the two classes that set it. *)
Definition nameOf (n : Node) : Value :=
  match fields n with
  | FunctionCallNode name _ | VariableNode name _ => name
  | _ => VUndefined
  end.

Section Render.

(** The recursive call [node.toGLSLBase(context)], with the context of
    the store. *)
Variable toGLSLBase : ref → M string.

(** A method call on a value that may not be a node. *)
Definition callToGLSLBase (v : Value) : M string :=
  match v with
  | VNode r => toGLSLBase r
  | _ => throw TypeError
  end.

(** [IntNode.toGLSL].  The test [isIntNode(this.x.type)] is applied to
    the type, which is not a node. *)
Definition IntNode_toGLSL (x : Value) : M string :=
  match x with
  | VNode r =>
      let* code := toGLSLBase r in
      let* xn := getNode r in
      let* same := isIntNode (typeValue (type xn)) in
      ret (if same then code else "int(" +:+ code +:+ ")")
  | VNumber q =>
      liftOption "number out of range" (Num.toStringInteger (Num.floor q))
  | _ =>
      let* s := template x in
      ret ("int(" +:+ s +:+ ")")
  end.

(** [FloatNode.toGLSL]. *)
Definition FloatNode_toGLSL (x : Value) : M string :=
  match x with
  | VNode r =>
      let* code := toGLSLBase r in
      let* same := isFloatNode x in
      ret (if same then code else "float(" +:+ code +:+ ")")
  | VNumber q =>
      liftOption "number out of range" (Num.toFixed4 q)
  | _ =>
      let* s := template x in
      ret ("float(" +:+ s +:+ ")")
  end.

(** The [forEach] of [VectorNode.toGLSL]: each component followed by a
    comma, but for the last one. *)
Fixpoint VectorNode_glslArgs (members : gmap string ref)
    (components : list string) : M string :=
  match components with
  | [] => ret ""
  | c :: rest =>
      let* code := match members !! c with
                   | Some r => toGLSLBase r
                   | None => throw TypeError
                   end in
      let comma := match rest with [] => "" | _ => ", " end in
      let* tail := VectorNode_glslArgs members rest in
      ret (code +:+ comma +:+ tail)
  end.

Definition VectorNode_toGLSL (this : Node) (components : list string)
    (members : gmap string ref) : M string :=
  let* glslArgs := VectorNode_glslArgs members components in
  ret (toStr (type this) +:+ "(" +:+ glslArgs +:+ ")").

(** [FunctionCallNode.deconstructArgs].  In the array case the [return]
    stands inside the loop body: the loop ends in its first round, and
    with no round the function ends without a value. *)
Definition deconstructArgs (args : Args) : M (option string) :=
  match args with
  | ArgsArray l =>
      let* argsString := callToGLSLBase (default VUndefined (l !! 0%nat)) in
      match drop 1 l with
      | arg :: _ =>
          let* code := callToGLSLBase arg in
          ret (Some (argsString +:+ ", " +:+ code))
      | [] => ret None
      end
  | ArgsValue v =>
      let* code := callToGLSLBase v in
      ret (Some code)
  end.

Definition FunctionCallNode_toGLSL (name : Value) (args : Args) : M string :=
  let* nm := template name in
  let* a := deconstructArgs args in
  ret (nm +:+ "(" +:+ toStr a +:+ ")").

Definition VariableNode_toGLSL (name : Value) : M string := template name.

(** [ComponentNode.toGLSL]: the temporary of the parent when it has
    one, its name otherwise. *)
Definition ComponentNode_toGLSL (parent component : Value) : M string :=
  let* parentName :=
    match parent with
    | VUndefined => throw TypeError
    | VNode r =>
        let* p := getNode r in
        if truthy (temporaryVariable p) then ret (toStr (temporaryVariable p))
        else template (nameOf p)
    | _ => ret "undefined"
    end in
  let* c := template component in
  ret (parentName +:+ "." +:+ c).

(** [BinaryOperatorNode.processOperand]. *)
Definition processOperand (this operand : ref) : M string :=
  let* o := getNode operand in
  if truthy (temporaryVariable o) then ret (toStr (temporaryVariable o))
  else
    let* code := toGLSLBase operand in
    let* o := getNode operand in
    let code := if isBinaryOperatorNodeN o && negb (truthy (temporaryVariable o))
                then "(" +:+ code +:+ ")" else code in
    let* n := getNode this in
    let code := if hasType "float" n && isIntNodeN o
                then "float(" +:+ code +:+ ")" else code in
    ret code.

Definition BinaryOperatorNode_toGLSL (this : ref) (op : option string)
    (a b : ref) : M string :=
  let* a := processOperand this a in
  let* b := processOperand this b in
  ret (a +:+ " " +:+ toStr op +:+ " " +:+ b).

(** [ModulusNode.toGLSL].  The integer case calls
    [processOperand(context, this.a)]: the context takes the place of
    the operand, and it has no method [toGLSLBase]. *)
Definition ModulusNode_toGLSL (this : Node) (a b : ref) : M string :=
  if isVectorNodeN this || isFloatNodeN this then
    let* a := toGLSLBase a in
    let* b := toGLSLBase b in
    ret ("mod(" +:+ a +:+ ", " +:+ b +:+ ")")
  else throw TypeError.

(** The method [toGLSL] of the class of the node. *)
Definition toGLSL (this : ref) : M string :=
  let* n := getNode this in
  match fields n with
  | IntNode x => IntNode_toGLSL x
  | FloatNode x => FloatNode_toGLSL x
  | VectorNode components members => VectorNode_toGLSL n components members
  | FunctionCallNode name args => FunctionCallNode_toGLSL name args
  | VariableNode name _ => VariableNode_toGLSL name
  | ComponentNode parent component => ComponentNode_toGLSL parent component
  | BinaryOperatorNode op a b => BinaryOperatorNode_toGLSL this op a b
  | ModulusNode a b => ModulusNode_toGLSL n a b
  end.

(** [BaseNode.getTemp]. *)
Definition getTemp (this : ref) : M string :=
  let* n := getNode this in
  (if negb (truthy (temporaryVariable n)) then
     let* i := getNextID in
     let temp := "temp_" +:+ Num.decimalNat i in
     updNode this (setTemporaryVariable temp) ;;
     let line := if truthy (srcLine n)
                 then nl +:+ "// From " +:+ toStr (srcLine n) +:+ nl
                 else "" in
     let* code := toGLSL this in
     let line := line +:+ toStr (type n) +:+ " " +:+ temp +:+ " = " +:+ code +:+ ";" in
     pushDeclaration line
   else ret tt) ;;
  let* n := getNode this in
  ret (toStr (temporaryVariable n)).

(** The body of [BaseNode.toGLSLBase]. *)
Definition toGLSLBase_body (this : ref) : M string :=
  let* n := getNode this in
  if useTempVar n then getTemp this else toGLSL this.

End Render.

(** [BaseNode.toGLSLBase]: [fuel] bounds the depth of the calls. *)
Fixpoint toGLSLBase (fuel : nat) (this : ref) : M string :=
  match fuel with
  | O => λ _, OutOfFuel
  | S fuel' => toGLSLBase_body (toGLSLBase fuel') this
  end.

(** ** The shader program: [ShaderGenerator] *)

(** [resetGLSLContext]. *)
Definition resetGLSLContext : M unit := update (setContext (mkContext 0 [])).

Section Generator.

(** Depth allowed to the renderer. *)
Variable fuel : nat.

(** [ShaderGenerator.buildFunction]; [callback] is the function of the
    user, run on the store. *)
Definition buildFunction (argumentName : string) (argumentType : option string)
    (callback : ref → M ref) : M string :=
  let* functionArgument := new_VariableNode (VString argumentName) argumentType true in
  let* root := callback functionArgument in
  let* finalLine := toGLSLBase fuel root in
  let* σ := get in
  let codeLines := declarations (context σ) in
  let codeLines := codeLines ++
    [nl +:+ argumentName +:+ " = " +:+ finalLine +:+ "; " +:+ nl +:+
     "return " +:+ argumentName +:+ ";"] in
  resetGLSLContext ;;
  ret (Str.join nl codeLines).

Definition getWorldPosition (func : ref → M ref) : M unit :=
  let* body := buildFunction "pos" (Some "vec3") func in
  update (setFunctions (λ fs, <["getWorldPosition" := body]> fs)).

Definition getFinalColor (func : ref → M ref) : M unit :=
  let* body := buildFunction "col" (Some "vec3") func in
  update (setFunctions (λ fs, <["getFinalColor" := body]> fs)).

End Generator.

(** The constructor of [ShaderGenerator]: empty tables and a new
    context.  ([inspectHooks] belongs to the shader object and writes
    nothing here.) *)
Definition new_ShaderGenerator : M unit :=
  update (setUniforms (λ _, ∅)) ;;
  update (setFunctions (λ _, ∅)) ;;
  resetGLSLContext.

(** The object returned by [callModifyFunction]. *)
Record Hooks := mkHooks {
  hooks_uniforms : gmap string Value;
  hooks_functions : gmap string string;
  vertex : option string;
  fragment : option string
}.

Definition callModifyFunction (modifyFunction : M unit) : M Hooks :=
  modifyFunction ;;
  let* σ := get in
  ret (mkHooks (uniforms σ) (functions σ)
               (functions σ !! "getWorldPosition")
               (functions σ !! "getFinalColor")).

(** ** User functions *)

Definition createVector2 (x y : Value) : M ref :=
  new_VectorNode [x; y] (Some "vec2") false.

Definition createVector3 (x y z : Value) : M ref :=
  new_VectorNode [x; y; z] (Some "vec3") false.

Definition createVector4 (x y z w : Value) : M ref :=
  new_VectorNode [x; y; z; w] (Some "vec4") false.

Definition createFloat (x : Value) : M ref := new_FloatNode x false.

Definition createInt (x : Value) : M ref := new_IntNode x false.

Definition instanceID : M ref :=
  new_VariableNode (VString "gl_InstanceID") (Some "int") false.

Definition uvCoords : M ref :=
  new_VariableNode (VString "vTexCoord") (Some "vec2") false.

Definition discard : M ref :=
  new_VariableNode (VString "discard") (Some "keyword") false.

(** The uniform declarators [uniformInt], [uniformFloat], ...: one per
    entry of [uniformFns], which gives the type. *)
Definition uniform (type name : string) (defaultValue : Value) : M ref :=
  update (setUniforms (λ us, <[type +:+ " " +:+ name := defaultValue]> us)) ;;
  new_VariableNode (VString name) (Some type) false.

Definition uniformInt := uniform "int".
Definition uniformFloat := uniform "float".
Definition uniformVector2 := uniform "vec2".
Definition uniformVector3 := uniform "vec3".
Definition uniformVector4 := uniform "vec4".
Definition uniformTexture := uniform "sampler2D".

(** The wrapper of [p5.prototype.texture] when the first argument is a
    node. *)
Definition texture (args : list Value) : M ref :=
  new_FunctionCallNode (VString "texture") (ArgsArray args) (Some "vec4") false.

(** ** Transpiler: the operator rewriter

    The syntax tree is the part of ESTree that carries expressions:
    what [acorn] parses from the source of the user's function. *)

#[warnings="-register-all"]
Inductive Expr :=
| Identifier (name : option string)
| Literal (raw : string)
| UnaryExpression (operator : string) (argument : Expr)
| BinaryExpression (operator : string) (left right : Expr)
| LogicalExpression (operator : string) (left right : Expr)
| AssignmentExpression (operator : string) (left right : Expr)
| MemberExpression (object property : Expr) (computed : bool)
| CallExpression (callee : Expr) (arguments : list Expr)
| ArrowFunctionExpression (params : list string) (body : list Stmt)
with Stmt :=
| ExpressionStatement (expression : Expr)
| VariableDeclaration (kind name : string) (init : option Expr)
| ReturnStatement (argument : option Expr).

Definition Program := list Stmt.

(** [replaceBinaryOperator]: a [switch] with no default. *)
Definition replaceBinaryOperator (codeSource : string) : option string :=
  match codeSource with
  | "+" => Some "add"
  | "-" => Some "sub"
  | "*" => Some "mult"
  | "/" => Some "div"
  | "%" => Some "mod"
  | _ => None
  end.

(** [node.name]: only an identifier has one. *)
Definition nameProperty (node : Expr) : option string :=
  match node with
  | Identifier name => name
  | _ => None
  end.

Module ASTCallbacks.

(** [AssignmentExpression(node)], given the operator and the two
    children of the node: the node after the callback.  The object of
    the call is a new identifier named [node.left.name]. *)
Definition AssignmentExpression (operator : string) (left right : Expr) : Expr :=
  if negb (String.eqb operator "=") then
    let rightReplacementNode :=
      CallExpression
        (MemberExpression
           (Identifier (nameProperty left))
           (Identifier (replaceBinaryOperator (Str.removeFirst "=" operator)))
           false)
        [right] in
    AssignmentExpression "=" left rightReplacementNode
  else AssignmentExpression operator left right.

(** [BinaryExpression(node)]: the node becomes a call. *)
Definition BinaryExpression (operator : string) (left right : Expr) : Expr :=
  CallExpression
    (MemberExpression left (Identifier (replaceBinaryOperator operator)) false)
    [right].

End ASTCallbacks.

(** [simple(ast, ASTCallbacks)] of [acorn-walk]: the children of a node
    are walked first, then the callback of its type, if there is one,
    runs on the node. *)
Fixpoint simple (node : Expr) : Expr :=
  match node with
  | Identifier _ | Literal _ => node
  | UnaryExpression op a => UnaryExpression op (simple a)
  | BinaryExpression op l r => ASTCallbacks.BinaryExpression op (simple l) (simple r)
  | LogicalExpression op l r => LogicalExpression op (simple l) (simple r)
  | AssignmentExpression op l r =>
      ASTCallbacks.AssignmentExpression op (simple l) (simple r)
  | MemberExpression o p computed =>
      MemberExpression (simple o) (if computed then simple p else p) computed
  | CallExpression c args => CallExpression (simple c) (map simple args)
  | ArrowFunctionExpression ps body =>
      ArrowFunctionExpression ps (map simpleStmt body)
  end
with simpleStmt (node : Stmt) : Stmt :=
  match node with
  | ExpressionStatement e => ExpressionStatement (simple e)
  | VariableDeclaration kind name init =>
      VariableDeclaration kind name (option_map simple init)
  | ReturnStatement a => ReturnStatement (option_map simple a)
  end.

Definition simpleProgram (ast : Program) : Program := map simpleStmt ast.

(** ** The entry point: [p5.Shader.prototype.modify] *)

(** The argument of [modify]: a function, known by its source text, or
    anything else. *)
Inductive Modifier (Other : Type) :=
| IsFunction (code : string)
| NotFunction (o : Other).

Arguments IsFunction {Other} code.
Arguments NotFunction {Other} o.

Section Modify.

(** The shader objects and the hooks objects of the library. *)
Variables Shader Other : Type.

(** The implementation of [modify] that was there before. *)
Variable oldModify : Shader → Modifier Other → M (option Shader).

(** [acorn.parse] (the message of the error when the text does not
    parse), [escodegen.generate], and what a call of
    [new Function(body)] does. *)
Variable parse : string → string + Program.
Variable generate : Program → string.
Variable Function_ : string → M unit.

Definition modify (this : Shader) (modifier : Modifier Other) : M (option Shader) :=
  match modifier with
  | IsFunction code =>
      match parse code with
      | inr ast =>
          let ast := simpleProgram ast in
          let transpiledArg := generate ast in
          let transpiledFn :=
            Function_ (Str.slice (Str.indexOf "{" transpiledArg + 1)
                                 (Str.lastIndexOf "}" transpiledArg)
                                 transpiledArg) in
          new_ShaderGenerator ;;
          let* newArg := callModifyFunction transpiledFn in
          ret None
      | inl e => throw e
      end
  | NotFunction _ => oldModify this modifier
  end.

End Modify.

(** ** The statements of the specification

    Definitions that follow the words of the specification, to be
    compared with the code above. *)

Module Spec.

Definition isType (t : string) (A : option string) : bool :=
  bool_decide (A = Some t).

Definition isVectorType (A : option string) : bool :=
  isType "vec2" A || isType "vec3" A || isType "vec4" A.

(** The promotion table of the type system, in priority order: equal
    types; a vector type with [float]; [float] with [int]; otherwise a
    type mismatch. *)
Inductive Promotion :=
| ResultType (t : option string)
| TypeMismatch.

Definition promotion (A B : option string) : Promotion :=
  if bool_decide (A = B) then ResultType A
  else if isVectorType A && isType "float" B then ResultType A
  else if isVectorType B && isType "float" A then ResultType B
  else if (isType "float" A && isType "int" B) || (isType "int" A && isType "float" B)
       then ResultType (Some "float")
  else TypeMismatch.

(** The score of the planner: 1 for a binary operator node, 2 for a
    vector type, and the number of entries of [usedIn]. *)
Definition score (n : Node) : nat :=
  (if isBinaryOperatorNodeN n then 1 else 0) +
  (if isVectorType (type n) then 2 else 0) +
  length (usedIn n).

Definition isVariable (n : Node) : bool :=
  match fields n with VariableNode _ _ => true | _ => false end.

Definition isComponent (n : Node) : bool :=
  match fields n with ComponentNode _ _ => true | _ => false end.

(** The hoisting policy as written: no temporary for a variable node
    or an internal node, otherwise one iff the score exceeds 3. *)
Definition hoists (n : Node) : bool :=
  negb (isVariable n) && negb (isInternal n) && (3 <? score n)%nat.

(** A variable node owns an accessor child for each of the four axis
    names. *)
Definition ownsFourAccessors (n : Node) : Prop :=
  match fields n with
  | VariableNode _ members => ∀ c, c ∈ axes → is_Some (members !! c)
  | _ => False
  end.

(** The natural number that a string of digits writes. *)
Definition readDigits (s : string) : option N :=
  N.of_uint <$> NilEmpty.uint_of_string s.

(** Text with exactly four decimal places for the number [x]: a minus
    sign when [x] is negative, digits, a point and four digits, which
    together write the integer nearest to [|x| * 10^4]. *)
Definition rendersFixed4 (x : Q) (s : string) : Prop :=
  ∃ a b,
    s = (if Qle_bool 0 x then "" else "-") +:+ a +:+ "." +:+ b ∧
    a ≠ "" ∧ Str.allDigits a = true ∧
    String.length b = 4%nat ∧ Str.allDigits b = true ∧
    readDigits (a +:+ b) = Some (Num.scaled4 (Qabs x)).

End Spec.

(** ** Sample runs *)

(** The lines of a stack trace, as an engine reports them. *)
Definition stackLines : list string :=
  ["Error: StackCapture";
   "    at new BaseNode (ShaderGen.js:113:17)";
   "    at new VectorNode (ShaderGen.js:304:7)";
   "    at fn.createVector3 (ShaderGen.js:592:12)";
   "    at eval (sketch.js:4:18)";
   "    at eval (sketch.js:5:12)"].

Definition emptyStore : Store := mkStore [] (mkContext 0 []) ∅ ∅ stackLines.

(** What a computation returns from the empty store. *)
Definition returned {A} (m : M A) : option A :=
  match m emptyStore with
  | Done a _ => Some a
  | _ => None
  end.

(** A vector used by two sums, rendered twice in one context: the two
    texts and the declarations of the context. *)
Definition renderTwice : M (string * string * list string) :=
  let* v := createVector3 (VNumber 1) (VNumber 2) (VNumber 3) in
  let* n1 := add v (VNumber 1) in
  let* n2 := add v (VNumber 2) in
  let* s1 := toGLSLBase 5 v in
  let* s2 := toGLSLBase 5 v in
  let* σ := get in
  ret (s1, s2, declarations (context σ)).

(** The same vector after its first rendering. *)
Definition hoistedVector : M Node :=
  let* v := createVector3 (VNumber 1) (VNumber 2) (VNumber 3) in
  let* n1 := add v (VNumber 1) in
  let* n2 := add v (VNumber 2) in
  let* s1 := toGLSLBase 5 v in
  getNode v.

(** An int node that is the left operand of four operations with float
    nodes; the first two operations are rendered. *)
Definition intInFloatSums : M (string * string * list string) :=
  let* i := createInt (VNumber 1) in
  let* f1 := createFloat (VNumber 1) in
  let* f2 := createFloat (VNumber 2) in
  let* f3 := createFloat (VNumber 3) in
  let* f4 := createFloat (VNumber 4) in
  let* n1 := add i (VNode f1) in
  let* n2 := sub i (VNode f2) in
  let* n3 := mult i (VNode f3) in
  let* n4 := div i (VNode f4) in
  let* s1 := toGLSLBase 5 n1 in
  let* s2 := toGLSLBase 5 n2 in
  let* σ := get in
  ret (s1, s2, declarations (context σ)).

(** [texture(tex, uv, bias)] and [texture(tex)]. *)
Definition textureCalls : M (string * string) :=
  let* tex := uniformTexture "tex" VUndefined in
  let* uv := uvCoords in
  let* bias := createFloat (VNumber (1 # 2)) in
  let* t3 := texture [VNode tex; VNode uv; VNode bias] in
  let* t1 := texture [VNode tex] in
  let* s3 := toGLSLBase 5 t3 in
  let* s1 := toGLSLBase 5 t1 in
  ret (s3, s1).

(** A hook whose result is [arg + vec3(0, 1, 0) + 1]. *)
Definition liftHook (arg : ref) : M ref :=
  let* v := createVector3 (VNumber 0) (VNumber 1) (VNumber 0) in
  let* p := add arg (VNode v) in
  add p (VNumber 1).

(** A modifier with the two hooks, each building its own nodes. *)
Definition twoHooks : M (option string * option string) :=
  new_ShaderGenerator ;;
  let* h := callModifyFunction
              (getWorldPosition 5 liftHook ;; getFinalColor 5 liftHook) in
  ret (vertex h, fragment h).

(** A modifier whose two hooks use one node built before them. *)
Definition sharedNodeHooks : M (option string * option string) :=
  new_ShaderGenerator ;;
  let* h := callModifyFunction
              (let* v := createVector3 (VNumber 0) (VNumber 1) (VNumber 0) in
               let* w := mult v (VNumber 2) in
               getWorldPosition 5 (λ pos, add pos (VNode w)) ;;
               getFinalColor 5 (λ col, add col (VNode w))) in
  ret (vertex h, fragment h).

(** [createInt(-1.5)], rendered. *)
Definition negativeInt : M string :=
  let* i := createInt (VNumber (- (3 # 2))) in
  toGLSLBase 5 i.

(** The variable of [uvCoords()]. *)
Definition uvVariable : M Node :=
  let* uv := uvCoords in
  getNode uv.

(** Syntax trees: [a - b * c], [a += b] and [v.x += y]. *)
Definition ident (x : string) : Expr := Identifier (Some x).

Definition a_minus_b_times_c : Expr :=
  BinaryExpression "-" (ident "a") (BinaryExpression "*" (ident "b") (ident "c")).

Definition a_plus_assign_b : Expr :=
  AssignmentExpression "+=" (ident "a") (ident "b").

Definition vx_plus_assign_y : Expr :=
  AssignmentExpression "+=" (MemberExpression (ident "v") (ident "x") false) (ident "y").

(** The message of the error a computation throws from the empty
    store. *)
Definition raised {A} (m : M A) : option string :=
  match m emptyStore with
  | Throws e _ => Some e
  | _ => None
  end.

(** The type of [a.add(b)] for two nodes built one after the other. *)
Definition typeOfSum (mkA mkB : M ref) : M (option string) :=
  let* a := mkA in
  let* b := mkB in
  let* n := add a (VNode b) in
  let* node := getNode n in
  ret (type node).

Definition someVec2 : M ref := createVector2 (VNumber 1) (VNumber 2).
Definition someVec3 : M ref := createVector3 (VNumber 1) (VNumber 2) (VNumber 3).
Definition someInt : M ref := createInt (VNumber 1).
Definition someFloat : M ref := createFloat (VNumber 1).

(** The store after a computation that starts from the empty store. *)
Definition storeAfter {A} (m : M A) : Store :=
  match m emptyStore with
  | Done _ σ => σ
  | _ => emptyStore
  end.

(** The store with two float nodes, at addresses 0 and 1. *)
Definition twoFloats : Store :=
  Eval vm_compute in
    storeAfter (createFloat (VNumber 1) ;; createFloat (VNumber 2)).

(** The store with an int node for 1 at address 0 and a float node
    for 1 at address 1. *)
Definition intAndFloat : Store :=
  Eval vm_compute in
    storeAfter (createInt (VNumber 1) ;; createFloat (VNumber 1)).

(** ** Stores met in the proofs *)

(** The operands of a new binary node, once they have recorded it: the
    right one is the left one when both are the same object. *)
Definition newBinary (isInternal : bool) (line : option string) (f : Fields) : Node :=
  mkNode None isInternal [] [] line None f.

Definition rightOperand (this ra rb : ref) (a b : Node) : Node :=
  if decide (ra = rb) then pushUsedIn this a else b.

Definition recorded (ns : list Node) (ra rb : ref) (a b n0 : Node) : list Node :=
  <[rb := pushUsedIn (length ns) (rightOperand (length ns) ra rb a b)]>
    (<[ra := pushUsedIn (length ns) a]> (ns ++ [n0])).

(** The accessor child of a variable for one axis, and a variable node
    with given members. *)
Definition accessor (this : ref) (c : string) : Node :=
  mkNode (Some "float") true [] [] None None (ComponentNode (VNode this) (VString c)).

Definition variableWith (name : Value) (ty : option string) (isInternal : bool)
    (line : option string) (members : gmap string ref) : Node :=
  mkNode ty isInternal [] [] line None (VariableNode name members).

(** The variable at [this] owns an accessor for each name of [cs], and
    nothing else. *)
Definition ownsAccessors (this : ref) (v : gmap string ref → Node)
    (cs : list string) (σ : Store) : Prop :=
  ∃ members,
    nodes σ !! this = Some (v members) ∧
    (∀ c, c ∈ cs → ∃ r, members !! c = Some r ∧ nodes σ !! r = Some (accessor this c)) ∧
    (∀ c, c ∉ cs → members !! c = None).

(** The last line of a function body. *)
Definition finalStatement (argumentName finalLine : string) : string :=
  nl +:+ argumentName +:+ " = " +:+ finalLine +:+ "; " +:+ nl +:+
  "return " +:+ argumentName +:+ ";".

(** ** Shapes of syntax trees *)

(** No binary expression is left and every assignment is a plain one. *)
Fixpoint rewritten (node : Expr) : bool :=
  match node with
  | Identifier _ | Literal _ => true
  | UnaryExpression _ a => rewritten a
  | BinaryExpression _ _ _ => false
  | LogicalExpression _ l r => rewritten l && rewritten r
  | AssignmentExpression op l r => String.eqb op "=" && rewritten l && rewritten r
  | MemberExpression o p computed => rewritten o && (negb computed || rewritten p)
  | CallExpression c args => rewritten c && forallb rewritten args
  | ArrowFunctionExpression _ body => forallb rewrittenStmt body
  end
with rewrittenStmt (node : Stmt) : bool :=
  match node with
  | ExpressionStatement e => rewritten e
  | VariableDeclaration _ _ init => from_option rewritten true init
  | ReturnStatement a => from_option rewritten true a
  end.

(** A program with calls only: [a.add(b); return f(c);]. *)
Definition callsOnly : Program :=
  [ExpressionStatement
     (CallExpression (MemberExpression (ident "a") (ident "add") false) [ident "b"]);
   ReturnStatement (Some (CallExpression (ident "f") [ident "c"]))].

(** The operators that [replaceBinaryOperator] knows. *)
Definition overloaded : list string := ["+"; "-"; "*"; "/"; "%"].

(** ** What a rendering may change *)

(** Two states of one node object that differ at most in
    [temporaryVariable], which is kept once it is defined. *)
Definition sameButTemporary (n n' : Node) : Prop :=
  type n' = type n ∧ isInternal n' = isInternal n ∧ usedIn n' = usedIn n ∧
  dependsOn n' = dependsOn n ∧ srcLine n' = srcLine n ∧ fields n' = fields n ∧
  (temporaryVariable n ≠ None → temporaryVariable n' = temporaryVariable n).

(** The nodes of [σ'] are those of [σ], up to [sameButTemporary]. *)
Definition sameNodes (σ σ' : Store) : Prop :=
  length (nodes σ') = length (nodes σ) ∧
  ∀ r n, nodes σ !! r = Some n →
         ∃ n', nodes σ' !! r = Some n' ∧ sameButTemporary n n'.

(** The context of [σ'] is the one of [σ] with [new] declarations pushed
    at the end and the counter advanced by their number. *)
Definition pushes (new : list string) (σ σ' : Store) : Prop :=
  declarations (context σ') = declarations (context σ) ++ new ∧
  id (context σ') = (id (context σ) + length new)%nat.

(** What a completed rendering leaves of the store it started in. *)
Definition rendered (σ σ' : Store) : Prop :=
  sameNodes σ σ' ∧
  uniforms σ' = uniforms σ ∧ functions σ' = functions σ ∧ stack σ' = stack σ ∧
  ∃ new, pushes new σ σ'.

(** A computation that, when it returns, leaves a [rendered] store. *)
Definition renders {A} (m : M A) : Prop :=
  ∀ σ a σ', m σ = Done a σ' → rendered σ σ'.

(** The declaration that [getTemp] pushes for the node [n], its
    temporary [temp] and its rendered text [code]. *)
Definition declarationLine (n : Node) (temp code : string) : string :=
  (if truthy (srcLine n) then nl +:+ "// From " +:+ toStr (srcLine n) +:+ nl else "")
  +:+ toStr (type n) +:+ " " +:+ temp +:+ " = " +:+ code +:+ ";".

(** ** More sample stores *)

(** A [vec3] at address 0 that two sums use, before and after its
    rendering. *)
Definition vectorUsedTwice : Store :=
  Eval vm_compute in
    storeAfter (let* v := createVector3 (VNumber 1) (VNumber 2) (VNumber 3) in
                add v (VNumber 1) ;; add v (VNumber 2)).

Definition vectorHoisted : Store :=
  Eval vm_compute in
    match toGLSLBase 5 0%nat vectorUsedTwice with
    | Done _ σ => σ
    | _ => vectorUsedTwice
    end.

(** Two int nodes at addresses 0 and 1 and their modulus at address 2. *)
Definition intModulus : Store :=
  Eval vm_compute in
    storeAfter (let* i := createInt (VNumber 7) in
                let* j := createInt (VNumber 2) in
                mod_ i (VNode j)).

(** The types on which the arithmetic methods accept a number. *)
Definition arithmetic (t : option string) : bool :=
  Spec.isType "int" t || Spec.isType "float" t || Spec.isVectorType t.

(** The store in which a call ended, when it returned or threw. *)
Definition finalStore {A} (o : Outcome A) : option Store :=
  match o with
  | Done _ σ | Throws _ σ => Some σ
  | _ => None
  end.

(** The node that [enforceType] makes of a number next to the node [n]:
    an int node when [n] is one, a float node otherwise. *)
Definition literalFor (n : Node) (x : Value) (line : string) : Node :=
  if isIntNodeN n
  then mkNode (Some "int") false [] [] (Some (Str.trim line)) None (IntNode x)
  else mkNode (Some "float") false [] [] (Some (Str.trim line)) None (FloatNode x).

(** The four arithmetic methods with their operators. *)
Definition arithmeticMethods : list ((ref → Value → M ref) * string) :=
  [(add, "+"); (sub, "-"); (mult, "*"); (div, "/")].

(** The users a node has once a new binary node at [this] with the
    operands at [ra] and [rb] was constructed: one more, two when the
    node is both operands. *)
Definition withUser (this ra rb : ref) (users : list ref) : list ref :=
  users ++ this :: (if decide (ra = rb) then [this] else []).

(** The node at an address of a sample store. *)
Definition nodeAt (σ : Store) (r : ref) : Node :=
  default (mkNode None true [] [] None None (IntNode VUndefined)) (nodes σ !! r).

(** An int node at address 0 and a [vec2] at address 1. *)
Definition intAndVector : Store :=
  Eval vm_compute in
    storeAfter (createInt (VNumber 1) ;; createVector2 (VNumber 1) (VNumber 2)).

(** ** Vectors *)

(** The member that a vector makes of one of its values: an internal
    float node around it. *)
Definition memberOf (x : Value) : Node :=
  mkNode (Some "float") true [] [] None None (FloatNode (defaultZero x)).

(** A vector node with given components and members. *)
Definition vectorWith (ty : option string) (isInternal : bool)
    (line : option string) (cs : list string) (members : gmap string ref) : Node :=
  mkNode ty isInternal [] [] line None (VectorNode cs members).

(** The vector at [this] owns a member for each pair of a component
    name and a value, and nothing else. *)
Definition ownsMembers (this : ref) (v : gmap string ref → Node)
    (pairs : list (string * Value)) (σ : Store) : Prop :=
  ∃ members,
    nodes σ !! this = Some (v members) ∧
    (∀ c x, (c, x) ∈ pairs →
       ∃ r, members !! c = Some r ∧ nodes σ !! r = Some (memberOf x)) ∧
    (∀ c, c ∉ pairs.*1 → members !! c = None).

(** The member of name [c] is an internal float node around a number
    that [toFixed(4)] writes as [text]. *)
Definition literalMember (σ : Store) (members : gmap string ref)
    (c text : string) : Prop :=
  ∃ r m q,
    members !! c = Some r ∧ nodes σ !! r = Some m ∧
    isInternal m = true ∧ fields m = FloatNode (VNumber q) ∧
    Num.toFixed4 q = Some text.

(** An int node at address 0 and an int node around it at address 1. *)
Definition intAroundInt : Store :=
  Eval vm_compute in
    storeAfter (let* i := createInt (VNumber 1) in createInt (VNode i)).

(** ** What the construction of nodes may change *)

(** The store [σ'] has the context, the tables and the stack of [σ],
    and no fewer nodes. *)
Definition built (σ σ' : Store) : Prop :=
  context σ' = context σ ∧ uniforms σ' = uniforms σ ∧
  functions σ' = functions σ ∧ stack σ' = stack σ ∧
  length (nodes σ) ≤ length (nodes σ').

(** A computation that leaves a [built] store, when it returns and when
    it throws. *)
Definition builds {A} (m : M A) : Prop :=
  ∀ σ σ', finalStore (m σ) = Some σ' → built σ σ'.

(** The table [uniformFns]: the types of the uniform declarators and
    the ends of their names. *)
Definition uniformFns : list (string * string) :=
  [("int", "Int"); ("float", "Float"); ("vec2", "Vector2");
   ("vec3", "Vector3"); ("vec4", "Vector4"); ("sampler2D", "Texture")].

(** The methods that make a call of a function of one argument, with
    its name and the type of the result on a receiver [n]. *)
Definition callMethods : list ((ref → M ref) * string * (Node → option string)) :=
  [(sin, "sin", λ _, Some "float"); (cos, "cos", λ _, Some "float");
   (radians, "radians", λ _, Some "float"); (abs, "abs", type)].




(** Two uniforms of one name and two types. *)
Definition oneUniform : Store :=
  Eval vm_compute in storeAfter (uniformFloat "time" (VNumber 0)).

Definition twoUniforms : Store :=
  Eval vm_compute in
    storeAfter (uniformFloat "time" (VNumber 0) ;; uniformVector2 "time" VUndefined).

(** * Properties *)

(** ** Planner *)

Lemma isVectorNodeN_type n : isVectorNodeN n = Spec.isVectorType (type n).
Proof. reflexivity. Qed.

Lemma useTempVar_score n :
  isInternal n = false → isVariableNodeN n = false →
  useTempVar n = (3 <? Spec.score n)%nat.
Proof.
  intros Hi Hv. unfold useTempVar, Spec.score. rewrite Hi, Hv. simpl.
  rewrite isVectorNodeN_type.
  f_equal. destruct (isBinaryOperatorNodeN n), (Spec.isVectorType (type n)); lia.
Qed.

(** C2, as the code has it: a temporary is allocated if and only if the
    node is not internal, is neither a variable node nor a component
    access node, has no temporary yet, and its score (1 for a binary
    operator node, 2 for a vector type, plus the length of [usedIn]) is
    greater than 3. *)
Theorem useTempVar_policy n :
  useTempVar n =
    Spec.hoists n && negb (Spec.isComponent n) &&
    bool_decide (temporaryVariable n = None).
Proof.
  unfold Spec.hoists.
  destruct (isInternal n) eqn:Hi.
  { unfold useTempVar. rewrite Hi. simpl. by rewrite andb_false_r. }
  destruct (isVariableNodeN n) eqn:Hv.
  - unfold useTempVar. rewrite Hi, Hv. simpl.
    unfold isVariableNodeN in Hv. unfold Spec.isVariable, Spec.isComponent.
    destruct (fields n); simpl; rewrite ?andb_false_r; try done;
      case_bool_decide; try done; case_bool_decide; try done;
      by rewrite andb_false_r.
  - rewrite (useTempVar_score n Hi Hv).
    unfold isVariableNodeN in Hv. unfold Spec.isVariable, Spec.isComponent.
    destruct (fields n); try done; simpl;
      case_bool_decide; try done; case_bool_decide; try done;
      by rewrite !andb_true_r.
Qed.

(** C2, as stated, fails on a node that was hoisted before: the policy
    of the specification asks for a temporary, [useTempVar] answers
    no. *)
Lemma hoisted_node_policy_differs :
  match returned hoistedVector with
  | Some n => Spec.hoists n = true ∧ useTempVar n = false
  | None => False
  end.
Proof. vm_compute. done. Qed.

(** [getTemp] alone keeps its promise: called again on a node that has
    its temporary, it returns the name and leaves the store as it is. *)
Lemma getTemp_cached rec this n σ :
  nodes σ !! this = Some n →
  truthy (temporaryVariable n) = true →
  getTemp rec this σ = Done (toStr (temporaryVariable n)) σ.
Proof.
  intros Hn Ht. unfold getTemp, bind, getNode. rewrite Hn, Ht. simpl.
  by rewrite Hn.
Qed.

(** Once a node has its temporary, [toGLSLBase] takes the branch of
    [toGLSL]: the node is written out again. *)
Lemma toGLSLBase_after_hoist fuel this n σ :
  nodes σ !! this = Some n →
  temporaryVariable n ≠ None →
  toGLSLBase (S fuel) this σ = toGLSL (toGLSLBase fuel) this σ.
Proof.
  intros Hn Ht. simpl. unfold toGLSLBase_body, bind, getNode. rewrite Hn.
  assert (useTempVar n = false) as ->; [|done].
  unfold useTempVar, isVariableNodeN.
  destruct (isInternal n); [done|]. simpl.
  destruct (fields n); try done; by rewrite bool_decide_eq_true_2.
Qed.

(** C3: a vector used by two sums is hoisted by its first rendering and
    written out in full by the second, in the same context; one
    declaration is pushed. *)
Theorem second_rendering_is_inline :
  returned renderTwice =
    Some ("temp_0", "vec3(1.0000, 2.0000, 3.0000)",
          [nl +:+ "// From at eval (sketch.js:5:12)" +:+ nl +:+
           "vec3 temp_0 = vec3(1.0000, 2.0000, 3.0000);"]).
Proof. vm_compute. reflexivity. Qed.

(** ** Code generator *)

(** An operand that has its temporary is rendered by that name alone,
    whatever its type and the type of the node. *)
Lemma processOperand_cached rec this operand o σ :
  nodes σ !! operand = Some o →
  truthy (temporaryVariable o) = true →
  processOperand rec this operand σ = Done (toStr (temporaryVariable o)) σ.
Proof.
  intros Ho Ht. unfold processOperand, bind, getNode. by rewrite Ho, Ht.
Qed.

(** C6: the int operand of a float sum is cast when its temporary is
    allocated by this rendering, and is not cast when the temporary is
    already there. *)
Theorem hoisted_int_operand_not_cast :
  returned intInFloatSums =
    Some ("float(temp_0) + 1.0000", "temp_0 - 2.0000",
          [nl +:+ "// From at eval (sketch.js:5:12)" +:+ nl +:+ "int temp_0 = 1;"]).
Proof. vm_compute. reflexivity. Qed.

(** C8: of three arguments in an array the third is not rendered, and a
    single argument in an array gives [undefined]. *)
Theorem array_arguments_cut :
  returned textureCalls = Some ("texture(tex, vTexCoord)", "texture(undefined)").
Proof. vm_compute. reflexivity. Qed.

(** In an array, what follows the second argument is not looked at, and
    a single argument is rendered but not returned. *)
Lemma deconstructArgs_rest rec a b rest :
  deconstructArgs rec (ArgsArray (a :: b :: rest)) =
    deconstructArgs rec (ArgsArray [a; b]).
Proof. reflexivity. Qed.

Lemma deconstructArgs_singleton rec r :
  deconstructArgs rec (ArgsArray [VNode r]) = (let* _ := rec r in ret None).
Proof. reflexivity. Qed.

(** A single argument that is not in an array is rendered. *)
Lemma deconstructArgs_single rec r :
  deconstructArgs rec (ArgsValue (VNode r)) =
    (let* code := rec r in ret (Some code)).
Proof. reflexivity. Qed.

(** Two arguments in an array are joined by a comma, in order. *)
Lemma deconstructArgs_pair rec r1 r2 :
  deconstructArgs rec (ArgsArray [VNode r1; VNode r2]) =
    (let* c1 := rec r1 in let* c2 := rec r2 in ret (Some (c1 +:+ ", " +:+ c2))).
Proof. reflexivity. Qed.

(** ** Operator rewriter *)

Lemma replaceBinaryOperator_table :
  replaceBinaryOperator "+" = Some "add" ∧
  replaceBinaryOperator "-" = Some "sub" ∧
  replaceBinaryOperator "*" = Some "mult" ∧
  replaceBinaryOperator "/" = Some "div" ∧
  replaceBinaryOperator "%" = Some "mod".
Proof. repeat split. Qed.

(** Every binary expression becomes a method call on its rewritten left
    operand, with its rewritten right operand as the argument. *)
Lemma simple_BinaryExpression op l r :
  simple (BinaryExpression op l r) =
    CallExpression
      (MemberExpression (simple l) (Identifier (replaceBinaryOperator op)) false)
      [simple r].
Proof. reflexivity. Qed.

(** A compound assignment to an identifier [x] becomes [x = x.method(y)]. *)
Lemma simple_compound_assignment_identifier op x r :
  op ≠ "=" →
  simple (AssignmentExpression op (Identifier x) r) =
    AssignmentExpression "=" (Identifier x)
      (CallExpression
         (MemberExpression (Identifier x)
            (Identifier (replaceBinaryOperator (Str.removeFirst "=" op))) false)
         [simple r]).
Proof.
  intros Hop. simpl. unfold ASTCallbacks.AssignmentExpression.
  destruct (String.eqb_spec op "="); [done | reflexivity].
Qed.

(** A plain assignment stays an assignment of its rewritten children. *)
Lemma simple_plain_assignment l r :
  simple (AssignmentExpression "=" l r) =
    AssignmentExpression "=" (simple l) (simple r).
Proof. reflexivity. Qed.

(** [a - b * c] becomes [a.sub(b.mult(c))], and [a += b] becomes
    [a = a.add(b)]. *)
Lemma simple_grouping :
  simple a_minus_b_times_c =
    CallExpression
      (MemberExpression (ident "a") (ident "sub") false)
      [CallExpression (MemberExpression (ident "b") (ident "mult") false)
                      [ident "c"]].
Proof. reflexivity. Qed.

Lemma simple_plus_assign :
  simple a_plus_assign_b =
    AssignmentExpression "=" (ident "a")
      (CallExpression (MemberExpression (ident "a") (ident "add") false)
                      [ident "b"]).
Proof. reflexivity. Qed.

(** C4: a compound assignment to a member, [v.x += y], becomes an
    assignment whose right side calls [add] on an identifier without a
    name, not on [v.x]. *)
Theorem compound_assignment_to_member :
  simple vx_plus_assign_y =
    AssignmentExpression "="
      (MemberExpression (ident "v") (ident "x") false)
      (CallExpression
         (MemberExpression (Identifier None) (ident "add") false)
         [ident "y"]).
Proof. reflexivity. Qed.

(** ** Entry point *)

(** C10: on a modifier that is not a function, [modify] is the previous
    implementation, whatever the parser, the printer and the compiled
    function are; on a function it does not depend on the previous
    implementation. *)
Theorem modify_not_function (Shader Other : Type)
    (oldModify oldModify' : Shader → Modifier Other → M (option Shader))
    (parse parse' : string → string + Program)
    (generate generate' : Program → string)
    (Function_ Function_' : string → M unit) (this : Shader) :
  (∀ o : Other,
     modify Shader Other oldModify parse generate Function_ this (NotFunction o) =
       oldModify this (NotFunction o) ∧
     modify Shader Other oldModify parse generate Function_ this (NotFunction o) =
       modify Shader Other oldModify parse' generate' Function_' this (NotFunction o)) ∧
  (∀ code : string,
     modify Shader Other oldModify parse generate Function_ this (IsFunction code) =
       modify Shader Other oldModify' parse generate Function_ this (IsFunction code)).
Proof. split; [intros o; split|intros code]; reflexivity. Qed.

(** ** Type rules *)

Lemma getNode_Done r n σ : nodes σ !! r = Some n → getNode r σ = Done n σ.
Proof. intros H. unfold getNode. by rewrite H. Qed.

Lemma updNode_Done r f n σ :
  nodes σ !! r = Some n →
  updNode r f σ = Done tt (setNodes (λ ns, <[r := f n]> ns) σ).
Proof. intros H. unfold updNode, bind. by rewrite (getNode_Done r n σ H). Qed.

Lemma captureSrcLine_store isInternal binary σ line σ' :
  captureSrcLine isInternal binary σ = Done line σ' → σ' = σ.
Proof.
  unfold captureSrcLine. destruct isInternal.
  - unfold ret. congruence.
  - unfold bind, get. destruct (stack σ !! _); unfold ret, throw; congruence.
Qed.

Lemma determineTypeOf_promotion a b :
  determineTypeOf a b =
    match Spec.promotion (type a) (type b) with
    | Spec.ResultType t => inl t
    | Spec.TypeMismatch => inr Incompatible
    end.
Proof.
  unfold determineTypeOf, Spec.promotion.
  rewrite !isVectorNodeN_type. unfold isFloatNodeN, isIntNodeN, hasType, Spec.isType.
  destruct (bool_decide (type a = type b)); [done|].
  destruct (Spec.isVectorType (type a) && _); [done|].
  destruct (Spec.isVectorType (type b) && _); [done|].
  by destruct (_ || _).
Qed.

Lemma determineTypeOf_types a b a' b' :
  type a' = type a → type b' = type b →
  determineTypeOf a' b' = determineTypeOf a b.
Proof. intros Ha Hb. rewrite !determineTypeOf_promotion. by rewrite Ha, Hb. Qed.

Section BinaryConstruction.

Variables (σ : Store) (ra rb : ref) (a b : Node).
Variables (mkFields : ref → ref → Fields) (isInternal : bool) (line : option string).

Hypothesis Ha : nodes σ !! ra = Some a.
Hypothesis Hb : nodes σ !! rb = Some b.
Hypothesis Hline : captureSrcLine isInternal true σ = Done line σ.
Hypothesis Hops : ∀ n, fields n = mkFields ra rb → operands n = Some (ra, rb).

Abbreviation this := (length (nodes σ)).
Abbreviation n0 := (newBinary isInternal line (mkFields ra rb)).
Abbreviation b0 := (rightOperand this ra rb a b).
Abbreviation pushed := (recorded (nodes σ) ra rb a b n0).

Lemma pushed_this : pushed !! this = Some n0.
Proof.
  unfold recorded. pose proof (lookup_lt_Some _ _ _ Ha). pose proof (lookup_lt_Some _ _ _ Hb).
  rewrite !list_lookup_insert_ne by lia.
  by rewrite list_lookup_middle.
Qed.

Lemma b0_type : type b0 = type b.
Proof.
  unfold rightOperand. destruct (decide (ra = rb)) as [e|]; [|done].
  simpl. rewrite e in Ha. congruence.
Qed.

Lemma b0_lookup : <[ra := pushUsedIn this a]> (nodes σ ++ [n0]) !! rb = Some b0.
Proof.
  pose proof (lookup_lt_Some _ _ _ Ha). unfold rightOperand.
  destruct (decide (ra = rb)) as [e|Hne].
  - rewrite <- e. apply list_lookup_insert_eq. rewrite length_app. lia.
  - rewrite list_lookup_insert_ne by done. by apply lookup_app_l_Some.
Qed.

Lemma pushed_b : ∃ b', pushed !! rb = Some b' ∧ type b' = type b.
Proof.
  exists (pushUsedIn this b0). split; [|apply b0_type].
  apply list_lookup_insert_eq. apply lookup_lt_Some with b0. apply b0_lookup.
Qed.

Lemma pushed_a : ∃ a', pushed !! ra = Some a' ∧ type a' = type a.
Proof.
  destruct (decide (ra = rb)) as [e|Hne].
  - destruct pushed_b as (b' & Hb' & Ht). exists b'. split.
    + rewrite <- Hb'. f_equal. exact e.
    + rewrite Ht. rewrite e in Ha. congruence.
  - exists (pushUsedIn this a). split; [|done].
    unfold recorded. rewrite list_lookup_insert_ne by done.
    apply list_lookup_insert_eq. rewrite length_app.
    pose proof (lookup_lt_Some _ _ _ Ha). lia.
Qed.

Lemma new_BinaryNode_pushes :
  new_BinaryNode mkFields (VNode ra) (VNode rb) isInternal σ =
    (let* t := determineType this in updNode this (setType t) ;; ret this)
      (setNodes (λ _, pushed) σ).
Proof.
  unfold new_BinaryNode. unfold bind at 1. rewrite Hline.
  unfold bind at 1. unfold alloc.
  unfold bind at 1.
  rewrite (updNode_Done ra _ a); [|by apply lookup_app_l_Some].
  unfold bind at 1.
  rewrite (updNode_Done rb _ b0).
  - reflexivity.
  - apply b0_lookup.
Qed.

Lemma determineType_pushed :
  determineType this (setNodes (λ _, pushed) σ) =
    match determineTypeOf a b with
    | inl t => Done t (setNodes (λ _, pushed) σ)
    | inr e => Throws e (setNodes (λ _, pushed) σ)
    end.
Proof.
  destruct pushed_a as (a' & Ha' & Hta). destruct pushed_b as (b' & Hb' & Htb).
  unfold determineType. unfold bind at 1.
  rewrite (getNode_Done this n0) by apply pushed_this.
  rewrite (Hops n0 eq_refl). simpl.
  unfold bind at 1. simpl.
  unfold bind at 1. rewrite (getNode_Done ra a') by done.
  unfold bind at 1. rewrite (getNode_Done rb b') by done.
  rewrite (determineTypeOf_types a b a' b') by done.
  by destruct (determineTypeOf a b).
Qed.

Lemma new_BinaryNode_result :
  match Spec.promotion (type a) (type b) with
  | Spec.ResultType t =>
      ∃ σ', new_BinaryNode mkFields (VNode ra) (VNode rb) isInternal σ = Done this σ' ∧
            nodes σ' !! this = Some (setType t n0)
  | Spec.TypeMismatch =>
      ∃ σ', new_BinaryNode mkFields (VNode ra) (VNode rb) isInternal σ =
              Throws Incompatible σ'
  end.
Proof.
  rewrite new_BinaryNode_pushes.
  pose proof determineType_pushed as Ht. rewrite determineTypeOf_promotion in Ht.
  destruct (Spec.promotion (type a) (type b)) as [t|];
    unfold bind at 1; rewrite Ht.
  - unfold bind at 1. rewrite (updNode_Done this _ n0) by apply pushed_this.
    eexists. split; [reflexivity|]. simpl.
    apply list_lookup_insert_eq. apply lookup_lt_Some with n0. apply pushed_this.
  - eexists. reflexivity.
Qed.

End BinaryConstruction.

(** The table on the combinations the specification names. *)
Lemma promotion_examples :
  Spec.promotion (Some "vec3") (Some "vec3") = Spec.ResultType (Some "vec3") ∧
  Spec.promotion (Some "vec3") (Some "float") = Spec.ResultType (Some "vec3") ∧
  Spec.promotion (Some "float") (Some "vec2") = Spec.ResultType (Some "vec2") ∧
  Spec.promotion (Some "float") (Some "int") = Spec.ResultType (Some "float") ∧
  Spec.promotion (Some "int") (Some "float") = Spec.ResultType (Some "float") ∧
  Spec.promotion (Some "vec2") (Some "vec3") = Spec.TypeMismatch ∧
  Spec.promotion (Some "int") (Some "vec3") = Spec.TypeMismatch.
Proof. repeat split. Qed.

(** Through [add], after the wrapping of [enforceType]: an int node
    added to a vector is wrapped into a float node first; a vector added
    to an int node is not. *)
Lemma add_examples :
  returned (typeOfSum someVec3 someVec3) = Some (Some "vec3") ∧
  returned (typeOfSum someVec3 someFloat) = Some (Some "vec3") ∧
  returned (typeOfSum someFloat someVec2) = Some (Some "vec2") ∧
  returned (typeOfSum someVec3 someInt) = Some (Some "vec3") ∧
  returned (typeOfSum someFloat someInt) = Some (Some "float") ∧
  returned (typeOfSum someInt someFloat) = Some (Some "float") ∧
  raised (typeOfSum someVec2 someVec3) = Some Incompatible ∧
  raised (typeOfSum someInt someVec3) = Some Incompatible.
Proof. repeat split; vm_compute; reflexivity. Qed.

(** C1: for two operands in the store, the constructor of a binary
    operator node returns a node whose type is the one of the promotion
    table, and throws exactly where the table has a type mismatch. *)
Theorem BinaryOperatorNode_type σ ra rb a b operator isInternal line :
  nodes σ !! ra = Some a →
  nodes σ !! rb = Some b →
  captureSrcLine isInternal true σ = Done line σ →
  match Spec.promotion (type a) (type b) with
  | Spec.ResultType t =>
      ∃ σ' n,
        new_BinaryOperatorNode (VNode ra) (VNode rb) operator isInternal σ =
          Done (length (nodes σ)) σ' ∧
        nodes σ' !! length (nodes σ) = Some n ∧
        type n = t ∧ fields n = BinaryOperatorNode operator ra rb
  | Spec.TypeMismatch =>
      ∃ σ',
        new_BinaryOperatorNode (VNode ra) (VNode rb) operator isInternal σ =
          Throws Incompatible σ'
  end.
Proof.
  intros Ha Hb Hline.
  pose proof (new_BinaryNode_result σ ra rb a b (BinaryOperatorNode operator)
                isInternal line Ha Hb Hline) as H.
  unfold new_BinaryOperatorNode.
  destruct (Spec.promotion (type a) (type b)) as [t|].
  - destruct H as (σ' & Hrun & Hn).
    { intros n Hf. unfold operands. by rewrite Hf. }
    exists σ'. eexists. split; [exact Hrun|]. split; [exact Hn|]. done.
  - apply H. intros n Hf. unfold operands. by rewrite Hf.
Qed.

Lemma BinaryOperatorNode_type_witness :
  ∃ σ' n,
    new_BinaryOperatorNode (VNode 0) (VNode 1) (Some "+") false twoFloats =
      Done 2 σ' ∧
    nodes σ' !! 2 = Some n ∧
    type n = Some "float" ∧ fields n = BinaryOperatorNode (Some "+") 0 1.
Proof.
  exact (BinaryOperatorNode_type twoFloats 0 1 _ _ (Some "+") false
           (Some "at eval (sketch.js:4:18)") eq_refl eq_refl eq_refl).
Defined.

(** ** Variables and their components *)

Lemma bind_Done {A B} (m : M A) (k : A → M B) σ a σ1 :
  m σ = Done a σ1 → bind m k σ = k a σ1.
Proof. intros H. unfold bind. by rewrite H. Qed.

Lemma addComponent_Done this c v σ :
  nodes σ !! this = Some v →
  addComponent this c σ =
    Done tt (setNodes (λ ns, <[this := setMember c (length ns) v]>
                               (ns ++ [accessor this c])) σ).
Proof.
  intros Hv. unfold addComponent.
  erewrite bind_Done by reflexivity.
  erewrite updNode_Done; [reflexivity|].
  simpl. by apply lookup_app_l_Some.
Qed.

Section VariableConstruction.

Variables (this : ref) (name : Value) (ty : option string).
Variables (isInternal : bool) (line : option string).

Abbreviation v := (variableWith name ty isInternal line).

Lemma addComponent_owns c cs σ :
  ownsAccessors this v cs σ →
  ∃ σ', addComponent this c σ = Done tt σ' ∧
        ownsAccessors this v (cs ++ [c]) σ' ∧
        context σ' = context σ ∧ length (nodes σ) ≤ length (nodes σ').
Proof.
  intros (ms & Hthis & Hin & Hout).
  pose proof (lookup_lt_Some _ _ _ Hthis) as Hlt.
  eexists. split; [by apply addComponent_Done|].
  split; [|split; [reflexivity|simpl; rewrite length_insert, length_app; lia]].
  exists (<[c := length (nodes σ)]> ms). simpl. split; [|split].
  - rewrite list_lookup_insert_eq by (rewrite length_app; lia). reflexivity.
  - intros c' Hc'. destruct (decide (c' = c)) as [->|Hne].
    + exists (length (nodes σ)). rewrite lookup_insert_eq. split; [done|].
      rewrite list_lookup_insert_ne by lia. by rewrite list_lookup_middle.
    + apply elem_of_app in Hc'. destruct Hc' as [Hc'|Hc1];
        [|by apply list_elem_of_singleton in Hc1].
      destruct (Hin c' Hc') as (r & Hr & Hnode).
      exists r. rewrite lookup_insert_ne by done. split; [done|].
      rewrite list_lookup_insert_ne; [by apply lookup_app_l_Some|].
      intros <-. rewrite Hthis in Hnode. discriminate.
  - intros c' Hc'. rewrite lookup_insert_ne by set_solver.
    apply Hout. set_solver.
Qed.

Lemma addComponents_owns cs : ∀ done σ,
  ownsAccessors this v done σ →
  ∃ σ', addComponents this cs σ = Done tt σ' ∧
        ownsAccessors this v (done ++ cs) σ' ∧
        context σ' = context σ ∧ length (nodes σ) ≤ length (nodes σ').
Proof.
  induction cs as [|c cs IH]; intros done σ Hown.
  - exists σ. rewrite app_nil_r. done.
  - destruct (addComponent_owns c done σ Hown) as (σ1 & Hrun & Hown1 & Hctx1 & Hlen1).
    destruct (IH (done ++ [c]) σ1 Hown1) as (σ2 & Hrun2 & Hown2 & Hctx2 & Hlen2).
    exists σ2. simpl. rewrite (bind_Done _ _ _ _ _ Hrun).
    rewrite <- app_assoc in Hown2. simpl in Hown2.
    split; [done|]. split; [done|]. split; [congruence|lia].
Qed.

End VariableConstruction.

Lemma new_VariableNode_Done σ name ty isInternal line :
  captureSrcLine isInternal false σ = Done line σ →
  ∃ σ' members,
    new_VariableNode name ty isInternal σ = Done (length (nodes σ)) σ' ∧
    nodes σ' !! length (nodes σ) =
      Some (variableWith name ty isInternal line members) ∧
    (∀ c, c ∈ options ty →
       ∃ r, members !! c = Some r ∧
            nodes σ' !! r = Some (accessor (length (nodes σ)) c)) ∧
    (∀ c, c ∉ options ty → members !! c = None) ∧
    context σ' = context σ.
Proof.
  intros Hline. unfold new_VariableNode.
  rewrite (bind_Done _ _ _ _ _ Hline).
  erewrite bind_Done by reflexivity.
  set (σ1 := setNodes _ σ).
  assert (Hthis0 : nodes σ1 !! length (nodes σ) =
                     Some (variableWith name ty isInternal line ∅)).
  { simpl. by rewrite list_lookup_middle. }
  assert (Hown : ownsAccessors (length (nodes σ))
                   (variableWith name ty isInternal line) [] σ1).
  { exists ∅. split; [done|]. split.
    - intros c Hc. by apply elem_of_nil in Hc.
    - intros c _. apply lookup_empty. }
  destruct (addComponents_owns (length (nodes σ)) name ty isInternal line
              (options ty) [] σ1 Hown)
    as (σ2 & Hrun & (ms & Hthis & Hin & Hout) & Hctx & Hlen).
  assert (Hauto : autoAddVectorComponents (length (nodes σ)) σ1 = Done tt σ2).
  { unfold autoAddVectorComponents.
    by rewrite (bind_Done _ _ _ _ _ (getNode_Done _ _ _ Hthis0)). }
  exists σ2, ms. rewrite (bind_Done _ _ _ _ _ Hauto).
  split; [reflexivity|]. split; [exact Hthis|]. split; [exact Hin|]. split; [exact Hout|].
  exact Hctx.
Qed.

(** C9, as the code has it: a new variable node owns one accessor child
    for each axis name of its type ([x], [y] for [vec2]; [x], [y], [z]
    for [vec3]; [x], [y], [z], [w] for [vec4]; none for another type),
    each an internal component access node of type [float] whose parent
    is the variable; it has no member for any other name. *)
Theorem VariableNode_components σ name ty isInternal line :
  captureSrcLine isInternal false σ = Done line σ →
  ∃ σ' members,
    new_VariableNode name ty isInternal σ = Done (length (nodes σ)) σ' ∧
    nodes σ' !! length (nodes σ) =
      Some (variableWith name ty isInternal line members) ∧
    (∀ c, c ∈ options ty →
       ∃ r, members !! c = Some r ∧
            nodes σ' !! r = Some (accessor (length (nodes σ)) c)) ∧
    (∀ c, c ∉ options ty → members !! c = None).
Proof.
  intros Hline.
  destruct (new_VariableNode_Done σ name ty isInternal line Hline)
    as (σ' & members & H1 & H2 & H3 & H4 & _).
  by exists σ', members.
Qed.

Lemma VariableNode_components_witness :
  ∃ σ' members,
    new_VariableNode (VString "vTexCoord") (Some "vec2") false emptyStore =
      Done 0 σ' ∧
    nodes σ' !! 0 =
      Some (variableWith (VString "vTexCoord") (Some "vec2") false
              (Some "at eval (sketch.js:5:12)") members) ∧
    (∀ c, c ∈ ["x"; "y"] →
       ∃ r, members !! c = Some r ∧ nodes σ' !! r = Some (accessor 0 c)) ∧
    (∀ c, c ∉ ["x"; "y"] → members !! c = None).
Proof.
  exact (VariableNode_components emptyStore (VString "vTexCoord") (Some "vec2")
           false (Some "at eval (sketch.js:5:12)") eq_refl).
Defined.

(** C9, as stated, fails on the variable of [uvCoords()], a [vec2]: it
    has no accessor for [z]. *)
Lemma vec2_variable_lacks_z :
  match returned uvVariable with
  | Some n => ¬ Spec.ownsFourAccessors n
  | None => False
  end.
Proof.
  remember (returned uvVariable) as r eqn:E. vm_compute in E. subst r.
  unfold Spec.ownsFourAccessors. simpl. intros H.
  destruct (H "z") as [r Hr].
  - unfold axes. set_solver.
  - vm_compute in Hr. discriminate.
Qed.

(** ** Numeric literals *)

Lemma allDigits_append s t :
  Str.allDigits (s +:+ t) = Str.allDigits s && Str.allDigits t.
Proof.
  induction s as [|c s IH]; simpl; [done|].
  rewrite IH. by rewrite andb_assoc.
Qed.

Lemma length_append s t :
  String.length (s +:+ t) = (String.length s + String.length t)%nat.
Proof. induction s as [|c s IH]; simpl; [done|]. by rewrite IH. Qed.

Lemma allDigits_zeros n : Str.allDigits (Str.zeros n) = true.
Proof. induction n as [|n IH]; simpl; [done|]. exact IH. Qed.

Lemma length_zeros n : String.length (Str.zeros n) = n.
Proof. induction n as [|n IH]; simpl; [done|]. by rewrite IH. Qed.

Lemma take_drop n s : Str.take n s +:+ Str.drop n s = s.
Proof.
  revert s. induction n as [|n IH]; intros [|c s]; try reflexivity.
  change (String c (Str.take n s +:+ Str.drop n s) = String c s).
  by rewrite IH.
Qed.

Lemma length_drop n s : String.length (Str.drop n s) = (String.length s - n)%nat.
Proof.
  revert s. induction n as [|n IH]; intros [|c s]; simpl; try done.
Qed.

Lemma allDigits_string_of_uint d : Str.allDigits (NilEmpty.string_of_uint d) = true.
Proof. induction d; simpl; done. Qed.

Lemma decimalN_digits n :
  Num.decimalN n ≠ "" ∧ Str.allDigits (Num.decimalN n) = true.
Proof.
  unfold Num.decimalN, NilZero.string_of_uint.
  destruct (N.to_uint n) eqn:E; simpl; (split; [done|]);
    try apply allDigits_string_of_uint; done.
Qed.

Lemma readDigits_zeros k s :
  Spec.readDigits (Str.zeros k +:+ s) = Spec.readDigits s.
Proof.
  unfold Spec.readDigits. induction k as [|k IH]; simpl; [done|].
  destruct (NilEmpty.uint_of_string (Str.zeros k +:+ s)) as [d|] eqn:E1;
    destruct (NilEmpty.uint_of_string s) as [d'|] eqn:E2; simpl in *; done.
Qed.

Lemma readDigits_decimalN n : Spec.readDigits (Num.decimalN n) = Some n.
Proof.
  unfold Spec.readDigits, Num.decimalN, NilZero.string_of_uint.
  pose proof (Unsigned.of_to n) as Hn.
  destruct (N.to_uint n) eqn:E; rewrite <- Hn;
    [reflexivity | rewrite NilEmpty.usu; reflexivity ..].
Qed.

Lemma pointBeforeLast4_shape m :
  m ≠ "" → Str.allDigits m = true →
  ∃ a b,
    Num.pointBeforeLast4 m = a +:+ "." +:+ b ∧
    a ≠ "" ∧ Str.allDigits a = true ∧
    String.length b = 4%nat ∧ Str.allDigits b = true ∧
    Spec.readDigits (a +:+ b) = Spec.readDigits m.
Proof.
  intros Hm Hd. unfold Num.pointBeforeLast4.
  set (m' := if bool_decide (String.length m ≤ 4)%nat
             then Str.zeros (5 - String.length m) +:+ m else m).
  assert (Hlen : (5 ≤ String.length m')%nat).
  { unfold m'. case_bool_decide; [|lia].
    rewrite length_append, length_zeros. lia. }
  assert (Hd' : Str.allDigits m' = true).
  { unfold m'. case_bool_decide; [|done].
    by rewrite allDigits_append, allDigits_zeros. }
  assert (Hr : Spec.readDigits m' = Spec.readDigits m).
  { unfold m'. case_bool_decide; [|done]. apply readDigits_zeros. }
  exists (Str.take (String.length m' - 4) m'), (Str.drop (String.length m' - 4) m').
  pose proof (take_drop (String.length m' - 4) m') as Htd.
  rewrite <- Htd in Hd' at 1. rewrite allDigits_append in Hd'.
  apply andb_true_iff in Hd' as [Hda Hdb].
  split; [done|]. split.
  - intros Ha. rewrite Ha in Htd.
    change (Str.drop (String.length m' - 4) m' = m') in Htd.
    pose proof (length_drop (String.length m' - 4) m') as Hl.
    rewrite Htd in Hl. lia.
  - split; [done|]. split; [rewrite length_drop; lia|]. split; [done|].
    by rewrite Htd.
Qed.

Lemma toFixed4_renders q :
  (Qabs q < 10 ^ 21)%Q →
  ∃ s, Num.toFixed4 q = Some s ∧ Spec.rendersFixed4 q s.
Proof.
  intros Hq. unfold Num.toFixed4.
  destruct (Qle_bool (10 ^ 21) (Qabs q)) eqn:E.
  { apply Qle_bool_iff in E. exfalso. by apply (Qlt_not_le _ _ Hq). }
  destruct (decimalN_digits (Num.scaled4 (Qabs q))) as [Hne Hd].
  destruct (pointBeforeLast4_shape _ Hne Hd) as (a & b & Heq & Ha & Hda & Hlb & Hdb & Hr).
  eexists. split; [reflexivity|].
  exists a, b. rewrite Heq. split; [done|].
  repeat (split; [done|]). by rewrite Hr, readDigits_decimalN.
Qed.

Lemma floor_trunc_nonneg q : (0 <= q)%Q → Num.floor q = Num.trunc q.
Proof.
  destruct q as [n d]. unfold Qle. simpl. intros H.
  unfold Num.floor, Num.trunc. simpl.
  rewrite Z.quot_div_nonneg; lia.
Qed.

(** C7, as the code has it: for a scalar node that wraps a number
    literal in the range where the engine prints all digits, an int
    scalar renders the floor of its value, which is its truncation when
    the value is not negative, and a float scalar renders its value with
    exactly four decimal places. *)
Theorem scalar_literal_rendering rec σ this n q :
  nodes σ !! this = Some n →
  (Z.abs (Num.floor q) ≤ Num.maxSafe)%Z →
  (Qabs q < 10 ^ 21)%Q →
  (fields n = IntNode (VNumber q) →
   toGLSL rec this σ = Done (Num.decimalZ (Num.floor q)) σ) ∧
  (fields n = FloatNode (VNumber q) →
   ∃ s, toGLSL rec this σ = Done s σ ∧ Spec.rendersFixed4 q s) ∧
  ((0 <= q)%Q → Num.floor q = Num.trunc q).
Proof.
  intros Hn Hint Hfloat. split; [|split].
  - intros Hf. unfold toGLSL. rewrite (bind_Done _ _ _ _ _ (getNode_Done _ _ _ Hn)).
    rewrite Hf. unfold IntNode_toGLSL, Num.toStringInteger.
    apply Z.leb_le in Hint. by rewrite Hint.
  - intros Hf. destruct (toFixed4_renders q Hfloat) as (s & Hs & Hr).
    exists s. unfold toGLSL. rewrite (bind_Done _ _ _ _ _ (getNode_Done _ _ _ Hn)).
    rewrite Hf. unfold FloatNode_toGLSL. by rewrite Hs.
  - apply floor_trunc_nonneg.
Qed.

Lemma scalar_literal_rendering_witness :
  toGLSL (toGLSLBase 0) 0 intAndFloat = Done "1" intAndFloat ∧
  (∃ s, toGLSL (toGLSLBase 0) 1 intAndFloat = Done s intAndFloat ∧
        Spec.rendersFixed4 1 s) ∧
  Num.floor 1 = Num.trunc 1.
Proof.
  assert (H1 : (Z.abs (Num.floor 1) ≤ Num.maxSafe)%Z) by (vm_compute; discriminate).
  assert (H2 : (Qabs 1 < 10 ^ 21)%Q) by reflexivity.
  destruct (scalar_literal_rendering (toGLSLBase 0) intAndFloat 0 _ 1 eq_refl H1 H2)
    as (A & _ & C).
  destruct (scalar_literal_rendering (toGLSLBase 0) intAndFloat 1 _ 1 eq_refl H1 H2)
    as (_ & B & _).
  split; [exact (A eq_refl)|]. split; [exact (B eq_refl)|]. apply C. discriminate.
Defined.

Example float_one : FloatNode_toGLSL (toGLSLBase 0) (VNumber 1) emptyStore =
                    Done "1.0000" emptyStore.
Proof. reflexivity. Qed.

(** C7, as stated, fails on a negative literal with a fraction:
    [createInt(-1.5)] renders [-2], the truncation of [-1.5] is [-1]. *)
Lemma negative_int_literal_is_floored :
  returned negativeInt = Some "-2" ∧
  Num.decimalZ (Num.trunc (- (3 # 2))) = "-1".
Proof. split; vm_compute; reflexivity. Qed.

(** ** Hooks and their contexts *)

Lemma bind_Done_inv {A B} (m : M A) (k : A → M B) σ b σ' :
  bind m k σ = Done b σ' →
  ∃ a σ1, m σ = Done a σ1 ∧ k a σ1 = Done b σ'.
Proof.
  unfold bind. destruct (m σ) as [a σ1| | |]; try discriminate.
  intros H. by exists a, σ1.
Qed.

(** A completed [buildFunction]: the callback ran in the context the
    call started with, the body lists the declarations of the context
    when the rendering ended, and the context left behind is new. *)
Lemma buildFunction_Done fuel argumentName argumentType callback σ body σ' :
  buildFunction fuel argumentName argumentType callback σ = Done body σ' →
  ∃ arg σa root σb finalLine σc,
    new_VariableNode (VString argumentName) argumentType true σ = Done arg σa ∧
    context σa = context σ ∧
    callback arg σa = Done root σb ∧
    toGLSLBase fuel root σb = Done finalLine σc ∧
    body = Str.join nl (declarations (context σc) ++
                        [finalStatement argumentName finalLine]) ∧
    σ' = setContext (mkContext 0 []) σc.
Proof.
  intros H. unfold buildFunction in H.
  apply bind_Done_inv in H as (arg & σa & Harg & H).
  apply bind_Done_inv in H as (root & σb & Hroot & H).
  apply bind_Done_inv in H as (finalLine & σc & Hline & H).
  exists arg, σa, root, σb, finalLine, σc.
  destruct (new_VariableNode_Done σ (VString argumentName) argumentType true None eq_refl)
    as (σa' & ms & Hnew & _ & _ & _ & Hctx).
  rewrite Hnew in Harg. injection Harg as <- <-.
  repeat (split; [done|]).
  unfold bind, get, resetGLSLContext, update, ret in H. simpl in H.
  injection H as <- <-. done.
Qed.

Lemma getNextID_fresh σ :
  context σ = mkContext 0 [] →
  getNextID σ = Done 0%nat (setContext (mkContext 1 []) σ).
Proof. intros H. unfold getNextID, bind, get, update, ret. by rewrite H. Qed.

(** When two hooks are compiled one after the other, the callback of
    the second starts in a context with counter 0 and no declaration,
    so that its first temporary is [temp_0] again; its body lists the
    declarations that context holds when its own rendering ends; and a
    new context is left behind once more. *)
Lemma second_hook_starts_fresh fuel f1 f2 σ σ1 σ2 :
  getWorldPosition fuel f1 σ = Done tt σ1 →
  getFinalColor fuel f2 σ1 = Done tt σ2 →
  ∃ arg σa root σb finalLine σc,
    new_VariableNode (VString "col") (Some "vec3") true σ1 = Done arg σa ∧
    context σa = mkContext 0 [] ∧
    getNextID σa = Done 0%nat (setContext (mkContext 1 []) σa) ∧
    f2 arg σa = Done root σb ∧
    toGLSLBase fuel root σb = Done finalLine σc ∧
    functions σ2 !! "getFinalColor" =
      Some (Str.join nl (declarations (context σc) ++
                         [finalStatement "col" finalLine])) ∧
    context σ2 = mkContext 0 [].
Proof.
  intros H1 H2.
  unfold getWorldPosition in H1. apply bind_Done_inv in H1 as (body1 & σ1' & Hb1 & Hu1).
  apply buildFunction_Done in Hb1 as (_ & _ & _ & _ & _ & σc1 & _ & _ & _ & _ & _ & ->).
  unfold update in Hu1. injection Hu1 as <-.
  unfold getFinalColor in H2. apply bind_Done_inv in H2 as (body2 & σ2' & Hb2 & Hu2).
  apply buildFunction_Done in Hb2
    as (arg & σa & root & σb & finalLine & σc & Harg & Hctx & Hcb & Hr & -> & ->).
  unfold update in Hu2. injection Hu2 as <-.
  exists arg, σa, root, σb, finalLine, σc.
  split; [done|]. split; [done|]. split; [by apply getNextID_fresh|].
  split; [done|]. split; [done|]. split; [|done].
  simpl. apply lookup_insert_eq.
Qed.

(** Two hooks that each build their own nodes: each body declares its
    own [temp_0]. *)
Lemma hooks_number_from_0 :
  returned twoHooks =
    Some (Some (nl +:+ "// From at eval (sketch.js:4:18)" +:+ nl +:+
                "vec3 temp_0 = pos + vec3(0.0000, 1.0000, 0.0000);" +:+ nl +:+
                nl +:+ "pos = temp_0 + 1.0000; " +:+ nl +:+ "return pos;"),
          Some (nl +:+ "// From at eval (sketch.js:4:18)" +:+ nl +:+
                "vec3 temp_0 = col + vec3(0.0000, 1.0000, 0.0000);" +:+ nl +:+
                nl +:+ "col = temp_0 + 1.0000; " +:+ nl +:+ "return col;")).
Proof. vm_compute. reflexivity. Qed.

(** C5: a node built before the hooks and hoisted by the first keeps its
    temporary: the second body names [temp_0] and declares nothing. *)
Theorem shared_node_keeps_temporary :
  returned sharedNodeHooks =
    Some (Some (nl +:+ "// From at eval (sketch.js:4:18)" +:+ nl +:+
                "vec3 temp_0 = vec3(0.0000, 1.0000, 0.0000) * 2.0000;" +:+ nl +:+
                nl +:+ "pos = pos + temp_0; " +:+ nl +:+ "return pos;"),
          Some (nl +:+ "col = col + temp_0; " +:+ nl +:+ "return col;")).
Proof. vm_compute. reflexivity. Qed.

(** ** Shapes of rewritten syntax trees *)

Section ExprInduction.

Variables (P : Expr → Prop) (Q : Stmt → Prop).

Hypothesis HIdentifier : ∀ name, P (Identifier name).
Hypothesis HLiteral : ∀ raw, P (Literal raw).
Hypothesis HUnary : ∀ op a, P a → P (UnaryExpression op a).
Hypothesis HBinary : ∀ op l r, P l → P r → P (BinaryExpression op l r).
Hypothesis HLogical : ∀ op l r, P l → P r → P (LogicalExpression op l r).
Hypothesis HAssignment : ∀ op l r, P l → P r → P (AssignmentExpression op l r).
Hypothesis HMember : ∀ o p c, P o → P p → P (MemberExpression o p c).
Hypothesis HCall : ∀ c args, P c → Forall P args → P (CallExpression c args).
Hypothesis HArrow : ∀ ps body, Forall Q body → P (ArrowFunctionExpression ps body).
Hypothesis HExpression : ∀ e, P e → Q (ExpressionStatement e).
Hypothesis HDeclaration :
  ∀ kind name init, (∀ e, init = Some e → P e) → Q (VariableDeclaration kind name init).
Hypothesis HReturn : ∀ a, (∀ e, a = Some e → P e) → Q (ReturnStatement a).

Lemma Expr_induction : ∀ e, P e.
Proof.
  fix IH 1. intros e.
  destruct e as [name|raw|op a|op l r|op l r|op l r|o p c|c args|ps body].
  - apply HIdentifier.
  - apply HLiteral.
  - apply HUnary, IH.
  - apply HBinary; apply IH.
  - apply HLogical; apply IH.
  - apply HAssignment; apply IH.
  - apply HMember; apply IH.
  - apply HCall; [apply IH|].
    induction args as [|x args IHargs]; constructor; [apply IH | exact IHargs].
  - apply HArrow.
    induction body as [|s body IHbody]; constructor; [|exact IHbody].
    destruct s as [x|k n [i|]|[a|]].
    + apply HExpression, IH.
    + apply HDeclaration. intros e' [= <-]. apply IH.
    + apply HDeclaration. intros e' [=].
    + apply HReturn. intros e' [= <-]. apply IH.
    + apply HReturn. intros e' [=].
Qed.

Lemma Stmt_induction : ∀ s, Q s.
Proof.
  intros [x|k n i|a].
  - apply HExpression, Expr_induction.
  - apply HDeclaration. intros e _. apply Expr_induction.
  - apply HReturn. intros e _. apply Expr_induction.
Qed.

End ExprInduction.

Lemma forallb_map_Forall {A} (f : A → A) (p : A → bool) (l : list A) :
  Forall (λ x, p (f x) = true) l → forallb p (map f l) = true.
Proof. induction 1 as [|x l Hx _ IH]; simpl; [done|]. by rewrite Hx, IH. Qed.

Lemma map_fixed_Forall {A} (f : A → A) (p : A → bool) (l : list A) :
  Forall (λ x, p x = true → f x = x) l → forallb p l = true → map f l = l.
Proof.
  induction 1 as [|x l Hx _ IH]; simpl; [done|].
  intros [Hp Hl]%andb_true_iff. by rewrite Hx, IH.
Qed.

Lemma simple_rewritten_expr : ∀ e, rewritten (simple e) = true.
Proof.
  apply (Expr_induction (λ e, rewritten (simple e) = true)
                        (λ s, rewrittenStmt (simpleStmt s) = true)); simpl; try done.
  - intros op l r Hl Hr. by rewrite Hl, Hr.
  - intros op l r Hl Hr. by rewrite Hl, Hr.
  - intros op l r Hl Hr. unfold ASTCallbacks.AssignmentExpression.
    destruct (String.eqb_spec op "=") as [->|Hop]; simpl; by rewrite Hl, Hr.
  - intros o p c Ho Hp. rewrite Ho. destruct c; simpl; [exact Hp|done].
  - intros c args Hc Hargs. rewrite Hc. simpl. by apply forallb_map_Forall.
  - intros ps body Hbody. by apply forallb_map_Forall.
  - intros kind name [e|] H; simpl; [by apply H|done].
  - intros [e|] H; simpl; [by apply H|done].
Qed.

Lemma simple_rewritten_stmt : ∀ s, rewrittenStmt (simpleStmt s) = true.
Proof.
  intros [e|kind name [e|]|[e|]]; simpl; try done; apply simple_rewritten_expr.
Qed.

(** X1: after the walk no binary expression is left anywhere in the
    program, also inside the arguments of calls and the bodies of arrow
    functions, and every assignment is a plain one. *)
Theorem simple_leaves_no_operator (ast : Program) :
  forallb rewrittenStmt (simpleProgram ast) = true.
Proof.
  unfold simpleProgram. apply forallb_map_Forall.
  apply Forall_forall. intros s _. apply simple_rewritten_stmt.
Qed.

Lemma simple_fixed_expr : ∀ e, rewritten e = true → simple e = e.
Proof.
  apply (Expr_induction (λ e, rewritten e = true → simple e = e)
                        (λ s, rewrittenStmt s = true → simpleStmt s = s)); simpl; try done.
  - intros op a IH H. by rewrite IH.
  - intros op l r IHl IHr [Hl Hr]%andb_true_iff. by rewrite IHl, IHr.
  - intros op l r IHl IHr [[Hop Hl]%andb_true_iff Hr]%andb_true_iff.
    apply String.eqb_eq in Hop as ->. by rewrite IHl, IHr.
  - intros o p c IHo IHp [Ho Hp]%andb_true_iff. rewrite IHo by done.
    destruct c; [|done]. by rewrite IHp.
  - intros c args IHc IHargs [Hc Hargs]%andb_true_iff.
    rewrite IHc by done. f_equal. by apply (map_fixed_Forall simple rewritten).
  - intros ps body IHbody H. f_equal.
    by apply (map_fixed_Forall simpleStmt rewrittenStmt).
  - intros e IH H. by rewrite IH.
  - intros kind name [e|] IH H; simpl; [|done]. by rewrite (IH e).
  - intros [e|] IH H; simpl; [|done]. by rewrite (IH e).
Qed.

Lemma simple_fixed_stmt : ∀ s, rewrittenStmt s = true → simpleStmt s = s.
Proof.
  intros [e|kind name [e|]|[e|]]; simpl; try done; intros H;
    by rewrite simple_fixed_expr.
Qed.

(** X2: a program that holds no binary expression and no compound
    assignment comes out of the walk as it went in. *)
Theorem simple_fixes_rewritten (ast : Program) :
  forallb rewrittenStmt ast = true → simpleProgram ast = ast.
Proof.
  intros H. unfold simpleProgram.
  apply (map_fixed_Forall simpleStmt rewrittenStmt); [|done].
  apply Forall_forall. intros s _. apply simple_fixed_stmt.
Qed.

(** X3: walking a program a second time changes nothing. *)
Theorem simple_idempotent (ast : Program) :
  simpleProgram (simpleProgram ast) = simpleProgram ast.
Proof.
  unfold simpleProgram. rewrite map_map. apply map_ext. intros s.
  apply simple_fixed_stmt, simple_rewritten_stmt.
Qed.

Lemma simple_fixes_rewritten_witness : simpleProgram callsOnly = callsOnly.
Proof. exact (simple_fixes_rewritten callsOnly eq_refl). Defined.

Lemma replaceBinaryOperator_None op :
  op ∉ overloaded → replaceBinaryOperator op = None.
Proof.
  intros H. destruct (replaceBinaryOperator op) as [m|] eqn:E; [|done].
  exfalso. apply H. unfold overloaded.
  destruct op as [|[[] [] [] [] [] [] [] []] [|? ?]]; simpl in E; try discriminate;
    set_solver.
Qed.

(** X4: a binary expression whose operator is none of [+ - * / %] (a
    comparison, [**], a shift, ...) is turned into a call all the same,
    and the property that is called has no name. *)
Theorem simple_other_operator op l r :
  op ∉ overloaded →
  simple (BinaryExpression op l r) =
    CallExpression (MemberExpression (simple l) (Identifier None) false) [simple r].
Proof. intros H. simpl. unfold ASTCallbacks.BinaryExpression. by rewrite replaceBinaryOperator_None. Qed.

Lemma simple_other_operator_witness :
  simple (BinaryExpression "<" (ident "a") (ident "b")) =
    CallExpression (MemberExpression (ident "a") (Identifier None) false) [ident "b"].
Proof.
  apply (simple_other_operator "<" (ident "a") (ident "b")).
  unfold overloaded. intros H. repeat (apply elem_of_cons in H as [H|H]; [discriminate|]).
  by apply elem_of_nil in H.
Defined.

Lemma removeFirst_append c s t :
  Str.indexOf c s = (-1)%Z → Str.removeFirst c (s +:+ String c t) = s +:+ t.
Proof.
  induction s as [|d s IH]; simpl.
  - intros _. by rewrite Ascii.eqb_refl.
  - destruct (Ascii.eqb c d); [done|].
    destruct (Str.indexOf c s <? 0)%Z eqn:E; [|lia].
    intros _. rewrite IH; [done|].
    apply Z.ltb_lt in E.
    clear IH. induction s as [|e s IHs]; simpl in *; [done|].
    destruct (Ascii.eqb c e); [lia|].
    destruct (Str.indexOf c s <? 0)%Z; [done|lia].
Qed.

Lemma append_empty_r s : s +:+ "" = s.
Proof.
  induction s as [|c s IH]; [done|].
  change (String c (s +:+ "") = String c s). by rewrite IH.
Qed.

(** X5: a compound assignment to an identifier calls the method that
    the binary operator before the [=] has in the table (none when the
    table has none, as for [**=] or [<<=]). *)
Theorem simple_compound_same_method op x r :
  op ≠ "" →
  Str.indexOf "=" op = (-1)%Z →
  simple (AssignmentExpression (op +:+ "=") (Identifier x) r) =
    AssignmentExpression "=" (Identifier x)
      (CallExpression
         (MemberExpression (Identifier x) (Identifier (replaceBinaryOperator op)) false)
         [simple r]).
Proof.
  intros Hne Habsent.
  rewrite simple_compound_assignment_identifier.
  - by rewrite (removeFirst_append "=" op "" Habsent), append_empty_r.
  - destruct op as [|c op]; [done|]. simpl. intros [= -> Hop].
    by destruct op.
Qed.

Lemma simple_compound_same_method_witness :
  simple (AssignmentExpression ("**" +:+ "=") (Identifier (Some "a")) (ident "b")) =
    AssignmentExpression "=" (Identifier (Some "a"))
      (CallExpression
         (MemberExpression (Identifier (Some "a"))
            (Identifier (replaceBinaryOperator "**")) false)
         [simple (ident "b")]).
Proof.
  apply (simple_compound_same_method "**" (Some "a") (ident "b")); [discriminate|reflexivity].
Defined.

(** ** The body of the transpiled function *)

Lemma indexOf_absent_lt c s : Str.indexOf c s = (-1)%Z ∨ (0 ≤ Str.indexOf c s)%Z.
Proof.
  induction s as [|d s IH]; simpl; [by left|].
  destruct (Ascii.eqb c d); [right; lia|].
  destruct (Str.indexOf c s <? 0)%Z eqn:E; [by left|].
  apply Z.ltb_ge in E. right. lia.
Qed.

Lemma indexOf_append c s t :
  Str.indexOf c s = (-1)%Z →
  Str.indexOf c (s +:+ String c t) = Z.of_nat (String.length s).
Proof.
  induction s as [|d s IH]; simpl.
  - intros _. by rewrite Ascii.eqb_refl.
  - destruct (Ascii.eqb c d); [lia|].
    destruct (Str.indexOf c s <? 0)%Z eqn:E; [|lia].
    intros _. apply Z.ltb_lt in E.
    destruct (indexOf_absent_lt c s) as [Hs|Hs]; [|lia].
    rewrite (IH Hs).
    destruct (Z.of_nat (String.length s) <? 0)%Z eqn:E'; [apply Z.ltb_lt in E'|]; lia.
Qed.

Lemma lastIndexOf_append c s t :
  Str.lastIndexOf c t = (-1)%Z →
  Str.lastIndexOf c (s +:+ String c t) = Z.of_nat (String.length s).
Proof.
  intros Ht. induction s as [|d s IH]; simpl.
  - rewrite Ht. simpl. by rewrite Ascii.eqb_refl.
  - rewrite IH.
    destruct (0 <=? Z.of_nat (String.length s))%Z eqn:E; [|apply Z.leb_gt in E]; lia.
Qed.

Lemma drop_append s t : Str.drop (String.length s) (s +:+ t) = t.
Proof. induction s as [|c s IH]; simpl; [by destruct t|done]. Qed.

Lemma take_append s t : Str.take (String.length s) (s +:+ t) = s.
Proof. induction s as [|c s IH]; simpl; [by destruct t|]. by rewrite IH. Qed.

Lemma append_assoc s t u : (s +:+ t) +:+ u = s +:+ (t +:+ u).
Proof.
  induction s as [|c s IH]; [done|].
  change (String c ((s +:+ t) +:+ u) = String c (s +:+ (t +:+ u))). by rewrite IH.
Qed.

Lemma clamp_inside len i : (0 ≤ i ≤ len)%Z → Str.clamp len i = Z.to_nat i.
Proof.
  intros H. unfold Str.clamp.
  destruct (i <? 0)%Z eqn:E; [apply Z.ltb_lt in E; lia|].
  by rewrite Z.min_l by lia.
Qed.

(** X6: from a text of the form [head { body } tail], with no opening
    brace in the head and no closing brace in the tail, the slice that
    [modify] takes is the body between the outermost braces. *)
Theorem slice_between_braces head body tail :
  Str.indexOf "{" head = (-1)%Z →
  Str.lastIndexOf "}" tail = (-1)%Z →
  let text := head +:+ "{" +:+ body +:+ "}" +:+ tail in
  Str.slice (Str.indexOf "{" text + 1) (Str.lastIndexOf "}" text) text = body.
Proof.
  intros Hhead Htail text. unfold text.
  change (head +:+ "{" +:+ body +:+ "}" +:+ tail)
    with (head +:+ String "{" (body +:+ String "}" tail)).
  set (s := head +:+ String "{" (body +:+ String "}" tail)).
  assert (Hopen : Str.indexOf "{" s = Z.of_nat (String.length head))
    by apply (indexOf_append "{" head _ Hhead).
  assert (Hclose : Str.lastIndexOf "}" s =
                   Z.of_nat (String.length head + 1 + String.length body)).
  { replace s with ((head +:+ String "{" body) +:+ String "}" tail)
      by apply append_assoc.
    rewrite (lastIndexOf_append "}" _ tail Htail), length_append. simpl. f_equal. lia. }
  assert (Hlen : String.length s =
                 (String.length head + 1 + String.length body + 1 + String.length tail)%nat).
  { unfold s. rewrite length_append. simpl. rewrite length_append. simpl. lia. }
  rewrite Hopen, Hclose. unfold Str.slice. rewrite Hlen.
  rewrite !clamp_inside by lia.
  replace (Z.to_nat (Z.of_nat (String.length head) + 1))
    with (String.length (head +:+ "{")) by (rewrite length_append; simpl; lia).
  replace s with ((head +:+ "{") +:+ (body +:+ String "}" tail))
    by apply append_assoc.
  rewrite drop_append.
  replace (_ - _)%nat with (String.length body)
    by (rewrite length_append; simpl; lia).
  apply take_append.
Qed.

Lemma slice_between_braces_witness :
  let text := "() => " +:+ "{" +:+ " return a.add(b); " +:+ "}" +:+ "" in
  Str.slice (Str.indexOf "{" text + 1) (Str.lastIndexOf "}" text) text =
    " return a.add(b); ".
Proof.
  apply (slice_between_braces "() => " " return a.add(b); " ""); reflexivity.
Defined.

(** X7: from a text with no brace at all (an arrow function whose body
    is an expression), the slice is the text without its last
    character. *)
Theorem slice_without_braces text :
  Str.indexOf "{" text = (-1)%Z →
  Str.lastIndexOf "}" text = (-1)%Z →
  Str.slice (Str.indexOf "{" text + 1) (Str.lastIndexOf "}" text) text =
    Str.take (String.length text - 1) text.
Proof.
  intros -> ->. unfold Str.slice, Str.clamp. simpl.
  rewrite Z.min_l by lia. simpl.
  replace (Str.drop 0 text) with text by (by destruct text).
  f_equal. lia.
Qed.

Lemma slice_without_braces_witness :
  Str.slice (Str.indexOf "{" "() => a + b;" + 1) (Str.lastIndexOf "}" "() => a + b;")
            "() => a + b;" =
    Str.take (String.length "() => a + b;" - 1) "() => a + b;".
Proof. apply (slice_without_braces "() => a + b;"); reflexivity. Defined.

(** ** What a rendering changes *)

Lemma sameButTemporary_refl n : sameButTemporary n n.
Proof. by repeat split. Qed.

Lemma sameButTemporary_trans n1 n2 n3 :
  sameButTemporary n1 n2 → sameButTemporary n2 n3 → sameButTemporary n1 n3.
Proof.
  intros (A1 & A2 & A3 & A4 & A5 & A6 & A7) (B1 & B2 & B3 & B4 & B5 & B6 & B7).
  repeat split; try congruence.
  intros H. rewrite B7; [by apply A7|]. by rewrite A7.
Qed.

Lemma sameNodes_refl σ : sameNodes σ σ.
Proof. split; [done|]. intros r n H. exists n. split; [done|apply sameButTemporary_refl]. Qed.

Lemma sameNodes_trans σ1 σ2 σ3 : sameNodes σ1 σ2 → sameNodes σ2 σ3 → sameNodes σ1 σ3.
Proof.
  intros [L1 N1] [L2 N2]. split; [congruence|].
  intros r n H. destruct (N1 r n H) as (n2 & H2 & S2).
  destruct (N2 r n2 H2) as (n3 & H3 & S3).
  exists n3. split; [done|]. by apply sameButTemporary_trans with n2.
Qed.

Lemma pushes_trans new1 new2 σ1 σ2 σ3 :
  pushes new1 σ1 σ2 → pushes new2 σ2 σ3 → pushes (new1 ++ new2) σ1 σ3.
Proof.
  intros [D1 I1] [D2 I2]. split.
  - by rewrite D2, D1, app_assoc.
  - rewrite I2, I1, length_app. lia.
Qed.

Lemma rendered_refl σ : rendered σ σ.
Proof.
  split; [apply sameNodes_refl|]. repeat (split; [done|]).
  exists []. split; [by rewrite app_nil_r|simpl; lia].
Qed.

Lemma rendered_trans σ1 σ2 σ3 : rendered σ1 σ2 → rendered σ2 σ3 → rendered σ1 σ3.
Proof.
  intros (N1 & U1 & F1 & S1 & new1 & P1) (N2 & U2 & F2 & S2 & new2 & P2).
  split; [by apply sameNodes_trans with σ2|].
  repeat (split; [congruence|]).
  exists (new1 ++ new2). by apply pushes_trans with σ2.
Qed.

Lemma renders_ret {A} (a : A) : renders (ret a).
Proof. intros σ b σ' [= _ <-]. apply rendered_refl. Qed.

Lemma renders_throw {A} e : renders (@throw A e).
Proof. intros σ b σ' [=]. Qed.

Lemma renders_stuck {A} why : renders (@stuck A why).
Proof. intros σ b σ' [=]. Qed.

Lemma renders_getNode r : renders (getNode r).
Proof.
  intros σ b σ'. unfold getNode. destruct (nodes σ !! r); intros [=]. subst.
  apply rendered_refl.
Qed.

Lemma renders_liftOption {A} why (o : option A) : renders (liftOption why o).
Proof. destruct o; [apply renders_ret|apply renders_stuck]. Qed.

Lemma renders_bind {A B} (m : M A) (k : A → M B) :
  renders m → (∀ a, renders (k a)) → renders (bind m k).
Proof.
  intros Hm Hk σ b σ' H. apply bind_Done_inv in H as (a & σ1 & H1 & H2).
  apply rendered_trans with σ1; [by apply (Hm σ a)|by apply (Hk a σ1 b)].
Qed.

Lemma renders_template v : renders (template v).
Proof.
  destruct v as [|s|q|r]; simpl; try apply renders_ret.
  destruct (Qeq_bool _ _); [apply renders_liftOption|apply renders_stuck].
Qed.

Lemma renders_onNode p v : renders (onNode p v).
Proof.
  destruct v; simpl; try apply renders_ret.
  apply renders_bind; [apply renders_getNode|intros n; apply renders_ret].
Qed.

Ltac renders_step :=
  first
    [ apply renders_ret | apply renders_throw | apply renders_stuck
    | apply renders_getNode | apply renders_liftOption | apply renders_template
    | apply renders_onNode | assumption
    | apply renders_bind; [|intros ?]
    | match goal with
      | |- renders (if ?b then _ else _) => destruct b
      | |- renders (match ?x with _ => _ end) => destruct x
      end ].

Ltac renders := repeat renders_step.

Section RenderKeeps.

Variable rec : ref → M string.
Hypothesis Hrec : ∀ r, renders (rec r).

Lemma renders_callToGLSLBase v : renders (callToGLSLBase rec v).
Proof. destruct v; simpl; [apply renders_throw ..|apply Hrec]. Qed.

Lemma renders_glslArgs members components :
  renders (VectorNode_glslArgs rec members components).
Proof.
  induction components as [|c rest IH]; simpl; [apply renders_ret|].
  apply renders_bind; [destruct (members !! c); [apply Hrec|apply renders_throw]|].
  intros code. apply renders_bind; [exact IH|intros tail; apply renders_ret].
Qed.

Lemma renders_processOperand this operand : renders (processOperand rec this operand).
Proof. unfold processOperand. renders. apply Hrec. Qed.

Lemma renders_toGLSL this : renders (toGLSL rec this).
Proof.
  unfold toGLSL. apply renders_bind; [apply renders_getNode|]. intros n.
  destruct (fields n) as [x|x|cs ms|name args|name ms|parent c|op a b|a b].
  - unfold IntNode_toGLSL, isIntNode. renders. apply Hrec.
  - unfold FloatNode_toGLSL, isFloatNode. renders. apply Hrec.
  - unfold VectorNode_toGLSL.
    apply renders_bind; [apply renders_glslArgs|intros ?; apply renders_ret].
  - unfold FunctionCallNode_toGLSL, deconstructArgs.
    apply renders_bind; [apply renders_template|]. intros nm.
    apply renders_bind; [|intros ?; apply renders_ret].
    destruct args as [v|l].
    + apply renders_bind; [apply renders_callToGLSLBase|intros ?; apply renders_ret].
    + apply renders_bind; [apply renders_callToGLSLBase|]. intros s.
      destruct (drop 1 l); [apply renders_ret|].
      apply renders_bind; [apply renders_callToGLSLBase|intros ?; apply renders_ret].
  - apply renders_template.
  - unfold ComponentNode_toGLSL. renders.
  - unfold BinaryOperatorNode_toGLSL.
    apply renders_bind; [apply renders_processOperand|]. intros sa.
    apply renders_bind; [apply renders_processOperand|intros ?; apply renders_ret].
  - unfold ModulusNode_toGLSL. renders; apply Hrec.
Qed.

End RenderKeeps.

Lemma useTempVar_no_temporary n : useTempVar n = true → temporaryVariable n = None.
Proof.
  unfold useTempVar, isVariableNodeN.
  destruct (isInternal n); [done|]. simpl.
  destruct (fields n); try done;
    (case_bool_decide as H; [done|]); intros _;
    by destruct (temporaryVariable n).
Qed.

Lemma truthy_temp i : truthy (Some ("temp_" +:+ Num.decimalNat i)) = true.
Proof. reflexivity. Qed.

(** A completed [getTemp] on a node without temporary: the name comes
    from the counter, it is stored on the node, and the declaration is
    pushed behind those that the rendering of the node pushed. *)
Lemma getTemp_Done rec this n σ s σ' :
  (∀ r, renders (rec r)) →
  nodes σ !! this = Some n →
  temporaryVariable n = None →
  getTemp rec this σ = Done s σ' →
  s = "temp_" +:+ Num.decimalNat (id (context σ)) ∧
  (∃ n', nodes σ' !! this = Some n' ∧ temporaryVariable n' = Some s) ∧
  sameNodes σ σ' ∧
  uniforms σ' = uniforms σ ∧ functions σ' = functions σ ∧ stack σ' = stack σ ∧
  ∃ new code, pushes (new ++ [declarationLine n s code]) σ σ'.
Proof.
  intros Hrec Hn Hnone H.
  set (temp := "temp_" +:+ Num.decimalNat (id (context σ))).
  set (σ1 := setContext (mkContext (S (id (context σ))) (declarations (context σ))) σ).
  set (σ2 := setNodes (λ ns, <[this := setTemporaryVariable temp n]> ns) σ1).
  unfold getTemp in H.
  rewrite (bind_Done _ _ _ _ _ (getNode_Done _ _ _ Hn)) in H.
  rewrite Hnone in H. simpl negb in H. cbv iota in H.
  apply bind_Done_inv in H as ([] & σ4 & Hpush & Hret).
  assert (Hid : getNextID σ = Done (id (context σ)) σ1) by reflexivity.
  rewrite (bind_Done _ _ _ _ _ Hid) in Hpush.
  assert (Hupd : updNode this (setTemporaryVariable temp) σ1 = Done tt σ2)
    by (by apply updNode_Done).
  fold temp in Hpush. rewrite (bind_Done _ _ _ _ _ Hupd) in Hpush.
  apply bind_Done_inv in Hpush as (code & σ3 & Hcode & Hpush).
  assert (Hlt : (this < length (nodes σ))%nat) by (by apply lookup_lt_Some with n).
  assert (H2 : nodes σ2 !! this = Some (setTemporaryVariable temp n))
    by (by apply list_lookup_insert_eq).
  destruct (renders_toGLSL rec Hrec this σ2 code σ3 Hcode)
    as ([L3 N3] & U3 & F3 & S3 & new & D3 & I3).
  destruct (N3 this _ H2) as (n3 & Hn3 & T3).
  unfold pushDeclaration, bind, get, update in Hpush. injection Hpush as <-.
  match type of Hret with
  | _ ?σ4 = _ =>
      assert (Hn4 : nodes σ4 !! this = Some n3) by exact Hn3;
      rewrite (bind_Done _ _ _ _ _ (getNode_Done this n3 σ4 Hn4)) in Hret
  end.
  injection Hret as <- <-.
  assert (Htemp3 : temporaryVariable n3 = Some temp).
  { destruct T3 as (_ & _ & _ & _ & _ & _ & T). by apply T. }
  split; [by rewrite Htemp3|]. split; [exists n3; by rewrite Htemp3|].
  split; [|split; [done|split; [done|split; [done|]]]].
  - split; [simpl; rewrite L3; unfold σ2; simpl; by rewrite length_insert|].
    intros r m Hr. destruct (decide (r = this)) as [e|Hne]; [subst r|].
    + exists n3. split; [done|].
      assert (E : Some m = Some n) by exact (eq_trans (eq_sym Hr) Hn).
      injection E as ->.
      apply sameButTemporary_trans with (setTemporaryVariable temp n); [|done].
      by repeat split.
    + apply (N3 r m). unfold σ2. simpl. by rewrite list_lookup_insert_ne.
  - exists new, code. rewrite Htemp3. simpl.
    split; simpl.
    + rewrite D3. unfold σ2, σ1. simpl. by rewrite app_assoc.
    + rewrite I3. unfold σ2, σ1. simpl. rewrite length_app. simpl. lia.
Qed.

Lemma renders_toGLSLBase fuel : ∀ this, renders (toGLSLBase fuel this).
Proof.
  induction fuel as [|fuel IH]; intros this σ s σ' H; [discriminate|].
  simpl in H. unfold toGLSLBase_body in H.
  apply bind_Done_inv in H as (n & σ0 & Hn & H).
  unfold getNode in Hn. destruct (nodes σ !! this) as [n0|] eqn:E; [|discriminate].
  injection Hn as Hn0 Hσ0. subst n0 σ0.
  destruct (useTempVar n) eqn:Huse.
  - destruct (getTemp_Done _ this n σ s σ' IH E (useTempVar_no_temporary n Huse) H)
      as (_ & _ & N & U & F & S & new & code & P).
    split; [done|]. repeat (split; [done|]). by eexists.
  - by apply (renders_toGLSL _ IH this σ s).
Qed.

(** X8: a rendering that completes only pushes declarations at the end
    of the list of the context, in the order it makes them, and
    advances the counter by exactly their number; the tables of
    uniforms and functions and the number of nodes stay as they are. *)
Theorem rendering_pushes_declarations fuel this σ s σ' :
  toGLSLBase fuel this σ = Done s σ' →
  (∃ new, declarations (context σ') = declarations (context σ) ++ new ∧
          id (context σ') = (id (context σ) + length new)%nat) ∧
  uniforms σ' = uniforms σ ∧ functions σ' = functions σ ∧
  length (nodes σ') = length (nodes σ).
Proof.
  intros H. destruct (renders_toGLSLBase fuel this σ s σ' H)
    as ([L _] & U & F & _ & new & P).
  split; [by exists new|done].
Qed.

(** X9: a rendering that completes changes no node but in its
    [temporaryVariable]: types, users, operands and members are those of
    before, and a temporary that was there stays the same. *)
Theorem rendering_keeps_nodes fuel this σ s σ' r n :
  toGLSLBase fuel this σ = Done s σ' →
  nodes σ !! r = Some n →
  ∃ n', nodes σ' !! r = Some n' ∧
        type n' = type n ∧ isInternal n' = isInternal n ∧
        usedIn n' = usedIn n ∧ srcLine n' = srcLine n ∧ fields n' = fields n ∧
        (temporaryVariable n ≠ None → temporaryVariable n' = temporaryVariable n).
Proof.
  intros H Hr. destruct (renders_toGLSLBase fuel this σ s σ' H) as ([_ N] & _).
  destruct (N r n Hr) as (n' & Hn' & T1 & T2 & T3 & _ & T5 & T6 & T7).
  by exists n'.
Qed.

(** X10: when a node is hoisted, the text returned is [temp_] followed
    by the counter of the context at that moment; the name is stored on
    the node; the declaration of the node is the last one pushed, behind
    those of the nodes it is made of; and [getTemp], called again,
    returns the same name and leaves the store as it is. *)
Theorem hoisted_declaration fuel this n σ s σ' :
  nodes σ !! this = Some n →
  useTempVar n = true →
  toGLSLBase (S fuel) this σ = Done s σ' →
  s = "temp_" +:+ Num.decimalNat (id (context σ)) ∧
  (∃ n', nodes σ' !! this = Some n' ∧ temporaryVariable n' = Some s) ∧
  (∃ new code,
     declarations (context σ') =
       declarations (context σ) ++ new ++ [declarationLine n s code] ∧
     id (context σ') = (id (context σ) + S (length new))%nat) ∧
  getTemp (toGLSLBase fuel) this σ' = Done s σ'.
Proof.
  intros Hn Huse H. simpl in H. unfold toGLSLBase_body in H.
  rewrite (bind_Done _ _ _ _ _ (getNode_Done _ _ _ Hn)), Huse in H.
  destruct (getTemp_Done _ this n σ s σ' (renders_toGLSLBase fuel) Hn
              (useTempVar_no_temporary n Huse) H)
    as (Hs & (n' & Hn' & Ht) & _ & _ & _ & _ & new & code & D & I).
  split; [done|]. split; [by exists n'|]. split.
  - exists new, code. split; [done|]. rewrite I, length_app. simpl. lia.
  - rewrite (getTemp_cached _ this n' σ' Hn'); rewrite Ht; [done|].
    rewrite Hs. apply truthy_temp.
Qed.

Lemma rendering_pushes_declarations_witness :
  (∃ new, declarations (context vectorHoisted) =
            declarations (context vectorUsedTwice) ++ new ∧
          id (context vectorHoisted) =
            (id (context vectorUsedTwice) + length new)%nat) ∧
  uniforms vectorHoisted = uniforms vectorUsedTwice ∧
  functions vectorHoisted = functions vectorUsedTwice ∧
  length (nodes vectorHoisted) = length (nodes vectorUsedTwice).
Proof.
  apply (rendering_pushes_declarations 5 0%nat vectorUsedTwice "temp_0" vectorHoisted).
  vm_compute. reflexivity.
Defined.

Lemma rendering_keeps_nodes_witness :
  ∃ n', nodes vectorHoisted !! 5%nat = Some n' ∧
        type n' = Some "vec3" ∧ isInternal n' = false ∧
        usedIn n' = [] ∧ srcLine n' = Some "at eval (sketch.js:4:18)" ∧
        fields n' = BinaryOperatorNode (Some "+") 0 4 ∧
        (@None string ≠ None → temporaryVariable n' = None).
Proof.
  refine (rendering_keeps_nodes 5 0%nat vectorUsedTwice "temp_0" vectorHoisted 5%nat
            (mkNode (Some "vec3") false [] [] (Some "at eval (sketch.js:4:18)") None
                    (BinaryOperatorNode (Some "+") 0 4)) _ _);
    vm_compute; reflexivity.
Defined.

Lemma hoisted_declaration_witness :
  "temp_0" = "temp_" +:+ Num.decimalNat (id (context vectorUsedTwice)) ∧
  (∃ n', nodes vectorHoisted !! 0%nat = Some n' ∧ temporaryVariable n' = Some "temp_0") ∧
  (∃ new code,
     declarations (context vectorHoisted) =
       declarations (context vectorUsedTwice) ++ new ++
       [declarationLine
          (mkNode (Some "vec3") false [5; 7] [] (Some "at eval (sketch.js:5:12)") None
             (VectorNode ["x"; "y"; "z"] (list_to_map [("x", 1); ("y", 2); ("z", 3)])))
          "temp_0" code] ∧
     id (context vectorHoisted) = (id (context vectorUsedTwice) + S (length new))%nat) ∧
  getTemp (toGLSLBase 4) 0 vectorHoisted = Done "temp_0" vectorHoisted.
Proof.
  apply (hoisted_declaration 4 0%nat _ vectorUsedTwice "temp_0" vectorHoisted);
    vm_compute; reflexivity.
Defined.

(** ** More on the planner *)

(** X11: a node that nothing uses is never hoisted, and one more user
    never turns a hoisted node into an inline one. *)
Theorem useTempVar_users n :
  (usedIn n = [] → useTempVar n = false) ∧
  (∀ user, useTempVar n = true → useTempVar (pushUsedIn user n) = true).
Proof.
  split.
  - intros H. unfold useTempVar. rewrite H.
    destruct (isInternal n || isVariableNodeN n); [done|].
    by destruct (isBinaryOperatorNodeN n), (isVectorNodeN n).
  - intros user. unfold useTempVar, isVariableNodeN, isBinaryOperatorNodeN, isVectorNodeN,
      hasType. simpl. rewrite length_app. simpl.
    destruct (isInternal n || _); [done|].
    intros H%Nat.ltb_lt. apply Nat.ltb_lt. lia.
Qed.

Lemma useTempVar_users_witness :
  useTempVar (mkNode (Some "vec3") false [] [] None None (VectorNode [] ∅)) = false ∧
  useTempVar (pushUsedIn 9 (mkNode (Some "vec3") false [5; 7] [] None None
                                   (VectorNode [] ∅))) = true.
Proof.
  split.
  - by apply (useTempVar_users
                (mkNode (Some "vec3") false [] [] None None (VectorNode [] ∅))).
  - by apply (useTempVar_users
                (mkNode (Some "vec3") false [5; 7] [] None None (VectorNode [] ∅))).
Defined.

(** X12: a modulus node whose type is neither [float] nor a vector type
    - the modulus of two int nodes - cannot be rendered: with any budget
    the rendering throws a [TypeError]. *)
Theorem int_modulus_throws fuel this n a b σ :
  nodes σ !! this = Some n →
  fields n = ModulusNode a b →
  isVectorNodeN n = false →
  isFloatNodeN n = false →
  ∃ σ', toGLSLBase (S fuel) this σ = Throws TypeError σ'.
Proof.
  intros Hn Hf Hv Hfl.
  assert (Hthrow : ∀ σ0 n0, nodes σ0 !! this = Some n0 → fields n0 = ModulusNode a b →
                           type n0 = type n →
                           toGLSL (toGLSLBase fuel) this σ0 = Throws TypeError σ0).
  { intros σ0 n0 H0 Hf0 Ht0. unfold toGLSL.
    rewrite (bind_Done _ _ _ _ _ (getNode_Done _ _ _ H0)), Hf0.
    unfold ModulusNode_toGLSL, isVectorNodeN, isFloatNodeN, hasType in *.
    rewrite Ht0, Hv, Hfl. reflexivity. }
  simpl. unfold toGLSLBase_body.
  rewrite (bind_Done _ _ _ _ _ (getNode_Done _ _ _ Hn)).
  destruct (useTempVar n) eqn:Huse.
  - unfold getTemp.
    rewrite (bind_Done _ _ _ _ _ (getNode_Done _ _ _ Hn)).
    rewrite (useTempVar_no_temporary n Huse). simpl negb. cbv iota.
    eexists. unfold bind at 1. unfold bind at 1.
    assert (Hid : ∀ σ0, getNextID σ0 = Done (id (context σ0))
              (setContext (mkContext (S (id (context σ0))) (declarations (context σ0))) σ0))
      by reflexivity.
    rewrite Hid. unfold bind at 1.
    erewrite updNode_Done by exact Hn.
    unfold bind at 1.
    erewrite (Hthrow _ (setTemporaryVariable _ n)); [reflexivity| |done|done].
    simpl. apply list_lookup_insert_eq. by apply lookup_lt_Some with n.
  - exists σ. by apply Hthrow with n.
Qed.

Lemma int_modulus_throws_witness :
  ∃ σ', toGLSLBase 3 2 intModulus = Throws TypeError σ'.
Proof.
  by apply (int_modulus_throws 2 2%nat
              (mkNode (Some "int") false [] [] (Some "at eval (sketch.js:4:18)") None
                      (ModulusNode 0 1)) 0%nat 1%nat intModulus).
Defined.

(** ** More on construction *)

Lemma captureSrcLine_Done (binary : bool) (σ : Store) (l : string) :
  stack σ !! (if binary then 4 else 5)%nat = Some l →
  captureSrcLine false binary σ = Done (Some (Str.trim l)) σ.
Proof. intros H. unfold captureSrcLine, bind, get. by rewrite H. Qed.

Lemma recorded_length (ns : list Node) (ra rb : ref) (a b n0 : Node) :
  length (recorded ns ra rb a b n0) = S (length ns).
Proof. unfold recorded. rewrite !length_insert, length_app. simpl. lia. Qed.

Lemma recorded_right (ns : list Node) (ra rb : ref) (a b n0 : Node) :
  ns !! rb = Some b →
  recorded ns ra rb a b n0 !! rb =
    Some (pushUsedIn (length ns) (rightOperand (length ns) ra rb a b)).
Proof.
  intros Hb. unfold recorded. apply list_lookup_insert_eq.
  rewrite length_insert, length_app. apply lookup_lt_Some in Hb. lia.
Qed.

Lemma recorded_left (ns : list Node) (ra rb : ref) (a b n0 : Node) :
  ns !! ra = Some a → ra ≠ rb →
  recorded ns ra rb a b n0 !! ra = Some (pushUsedIn (length ns) a).
Proof.
  intros Ha Hne. unfold recorded. rewrite list_lookup_insert_ne by done.
  apply list_lookup_insert_eq. rewrite length_app. apply lookup_lt_Some in Ha. lia.
Qed.

Lemma recorded_other (ns : list Node) (ra rb : ref) (a b n0 : Node) (r : ref) (n : Node) :
  r ≠ ra → r ≠ rb → ns !! r = Some n → recorded ns ra rb a b n0 !! r = Some n.
Proof.
  intros H1 H2 Hr. unfold recorded. rewrite !list_lookup_insert_ne by done.
  by apply lookup_app_l_Some.
Qed.

(** The store the constructor of a binary node ends in. *)
Lemma new_BinaryNode_store σ ra rb a b mkFields isInternal line :
  nodes σ !! ra = Some a →
  nodes σ !! rb = Some b →
  captureSrcLine isInternal true σ = Done line σ →
  (∀ n, fields n = mkFields ra rb → operands n = Some (ra, rb)) →
  new_BinaryNode mkFields (VNode ra) (VNode rb) isInternal σ =
    match Spec.promotion (type a) (type b) with
    | Spec.ResultType t =>
        Done (length (nodes σ))
          (setNodes (λ ns, <[length (nodes σ) :=
                               setType t (newBinary isInternal line (mkFields ra rb))]> ns)
             (setNodes (λ _, recorded (nodes σ) ra rb a b
                               (newBinary isInternal line (mkFields ra rb))) σ))
    | Spec.TypeMismatch =>
        Throws Incompatible
          (setNodes (λ _, recorded (nodes σ) ra rb a b
                            (newBinary isInternal line (mkFields ra rb))) σ)
    end.
Proof.
  intros Ha Hb Hline Hops.
  rewrite (new_BinaryNode_pushes σ ra rb a b mkFields isInternal line Ha Hb Hline).
  pose proof (determineType_pushed σ ra rb a b mkFields isInternal line Ha Hb Hops) as Ht.
  rewrite determineTypeOf_promotion in Ht.
  unfold bind at 1. rewrite Ht.
  destruct (Spec.promotion (type a) (type b)) as [t|]; [|done].
  unfold bind at 1.
  erewrite updNode_Done; [reflexivity|].
  exact (pushed_this σ ra rb a b mkFields isInternal line Ha Hb).
Qed.

(** X13: the constructor of a binary operator node makes both operands
    record the new node before the types are compared: whether it
    returns or throws the type error, each operand has one more user,
    two when it is both operands, and no other node has changed. *)
Theorem operands_record_user σ ra rb a b operator isInternal line :
  nodes σ !! ra = Some a →
  nodes σ !! rb = Some b →
  captureSrcLine isInternal true σ = Done line σ →
  ∃ σ',
    finalStore (new_BinaryOperatorNode (VNode ra) (VNode rb) operator isInternal σ) =
      Some σ' ∧
    usedIn <$> nodes σ' !! ra = Some (withUser (length (nodes σ)) ra rb (usedIn a)) ∧
    usedIn <$> nodes σ' !! rb = Some (withUser (length (nodes σ)) ra rb (usedIn b)) ∧
    ∀ r n, r ≠ ra → r ≠ rb → nodes σ !! r = Some n → nodes σ' !! r = Some n.
Proof.
  intros Ha Hb Hline. unfold new_BinaryOperatorNode.
  rewrite (new_BinaryNode_store σ ra rb a b _ isInternal line Ha Hb Hline)
    by (intros n Hf; unfold operands; by rewrite Hf).
  set (n0 := newBinary isInternal line (BinaryOperatorNode operator ra rb)).
  pose proof (lookup_lt_Some _ _ _ Ha) as Hlta.
  pose proof (lookup_lt_Some _ _ _ Hb) as Hltb.
  assert (Hra : usedIn <$> recorded (nodes σ) ra rb a b n0 !! ra =
                Some (withUser (length (nodes σ)) ra rb (usedIn a))).
  { unfold withUser. destruct (decide (ra = rb)) as [e|Hne].
    - replace (recorded (nodes σ) ra rb a b n0 !! ra)
        with (recorded (nodes σ) ra rb a b n0 !! rb) by (by rewrite e).
      rewrite recorded_right by done.
      unfold rightOperand. rewrite decide_True by done. simpl.
      rewrite e in Ha. assert (a = b) as -> by congruence.
      by rewrite <- app_assoc.
    - by rewrite recorded_left. }
  assert (Hrb : usedIn <$> recorded (nodes σ) ra rb a b n0 !! rb =
                Some (withUser (length (nodes σ)) ra rb (usedIn b))).
  { rewrite recorded_right by done. unfold withUser, rightOperand.
    destruct (decide (ra = rb)) as [e|Hne]; simpl; [|done].
    rewrite e in Ha. assert (a = b) as -> by congruence.
    by rewrite <- app_assoc. }
  destruct (Spec.promotion (type a) (type b)) as [t|]; eexists; (split; [reflexivity|]);
    simpl; rewrite ?list_lookup_insert_ne by lia; (split; [done|]); (split; [done|]);
    intros r n Hr1 Hr2 Hr; pose proof (lookup_lt_Some _ _ _ Hr);
    rewrite ?list_lookup_insert_ne by lia; by apply recorded_other.
Qed.

Lemma enforceType_number this n q σ l5 :
  nodes σ !! this = Some n →
  stack σ !! 5%nat = Some l5 →
  enforceType this (VNumber q) σ =
    Done (length (nodes σ))
         (setNodes (λ ns, ns ++ [literalFor n (VNumber q) l5]) σ).
Proof.
  intros Hn H5. unfold enforceType.
  rewrite (bind_Done _ _ _ _ _ (getNode_Done _ _ _ Hn)).
  unfold literalFor, new_IntNode, new_FloatNode.
  destruct (isIntNodeN n);
    by rewrite (bind_Done _ _ _ _ _ (captureSrcLine_Done false σ l5 H5)).
Qed.

Lemma enforceType_wrap this n r o σ l5 :
  nodes σ !! this = Some n →
  nodes σ !! r = Some o →
  isFloatNodeN n || isVectorNodeN n = true →
  isIntNodeN o = true →
  stack σ !! 5%nat = Some l5 →
  enforceType this (VNode r) σ =
    Done (length (nodes σ))
         (setNodes (λ ns, ns ++ [mkNode (Some "float") false [] [] (Some (Str.trim l5))
                                        None (FloatNode (VNode r))]) σ).
Proof.
  intros Hn Hr Hfv Hi H5. unfold enforceType.
  rewrite (bind_Done _ _ _ _ _ (getNode_Done _ _ _ Hn)).
  rewrite (bind_Done _ _ _ _ _ (getNode_Done _ _ _ Hr)).
  rewrite Hfv, Hi. simpl. unfold new_FloatNode.
  by rewrite (bind_Done _ _ _ _ _ (captureSrcLine_Done false σ l5 H5)).
Qed.

Lemma enforceType_pass this n r o σ :
  nodes σ !! this = Some n →
  nodes σ !! r = Some o →
  (isFloatNodeN n || isVectorNodeN n) && isIntNodeN o = false →
  enforceType this (VNode r) σ = Done r σ.
Proof.
  intros Hn Hr H. unfold enforceType.
  rewrite (bind_Done _ _ _ _ _ (getNode_Done _ _ _ Hn)).
  rewrite (bind_Done _ _ _ _ _ (getNode_Done _ _ _ Hr)).
  by rewrite H.
Qed.

Lemma promotion_literal n x l :
  Spec.promotion (type n) (type (literalFor n x l)) =
    if arithmetic (type n) then Spec.ResultType (type n) else Spec.TypeMismatch.
Proof.
  unfold literalFor, isIntNodeN, hasType, arithmetic, Spec.isType.
  destruct (bool_decide (type n = Some "int")) eqn:Ei.
  { apply bool_decide_eq_true in Ei. rewrite Ei. reflexivity. }
  simpl type. unfold Spec.promotion, Spec.isType. rewrite Ei.
  destruct (bool_decide (type n = Some "float")) eqn:Ef.
  { apply bool_decide_eq_true in Ef. rewrite Ef. reflexivity. }
  simpl. destruct (Spec.isVectorType (type n)); reflexivity.
Qed.

(** The arithmetic methods are one construction, up to the operator. *)
Lemma arithmeticMethods_unfold f op :
  (f, op) ∈ arithmeticMethods →
  ∀ this other,
    f this other =
      (let* b := enforceType this other in
       new_BinaryOperatorNode (VNode this) (VNode b) (Some op) false).
Proof.
  unfold arithmeticMethods. intros H.
  repeat (apply elem_of_cons in H as [[= -> ->]|H]; [done|]).
  by apply elem_of_nil in H.
Qed.

(** X14: [add], [sub], [mult] and [div] with a number as argument: on
    a node typed [int], [float] or a vector type the result has the
    type of that node (the number becomes an int node next to an int
    node and a float node otherwise); on a node of any other type the
    type error is thrown. *)
Theorem arithmetic_with_number f op this n q σ l4 l5 :
  (f, op) ∈ arithmeticMethods →
  nodes σ !! this = Some n →
  stack σ !! 4%nat = Some l4 →
  stack σ !! 5%nat = Some l5 →
  if arithmetic (type n)
  then ∃ σ' node,
         f this (VNumber q) σ = Done (S (length (nodes σ))) σ' ∧
         nodes σ' !! S (length (nodes σ)) = Some node ∧
         type node = type n ∧
         fields node = BinaryOperatorNode (Some op) this (length (nodes σ))
  else ∃ σ', f this (VNumber q) σ = Throws Incompatible σ'.
Proof.
  intros Hf Hn H4 H5. rewrite (arithmeticMethods_unfold f op Hf).
  rewrite (bind_Done _ _ _ _ _ (enforceType_number this n q σ l5 Hn H5)).
  set (lit := literalFor n (VNumber q) l5).
  set (σ1 := setNodes (λ ns, ns ++ [lit]) σ).
  assert (Ha : nodes σ1 !! this = Some n) by (by apply lookup_app_l_Some).
  assert (Hb : nodes σ1 !! length (nodes σ) = Some lit) by (by apply list_lookup_middle).
  assert (Hline : captureSrcLine false true σ1 = Done (Some (Str.trim l4)) σ1)
    by (by apply captureSrcLine_Done).
  unfold new_BinaryOperatorNode.
  rewrite (new_BinaryNode_store σ1 this (length (nodes σ)) n lit _ false _ Ha Hb Hline)
    by (intros m Hm; unfold operands; by rewrite Hm).
  unfold lit. rewrite promotion_literal.
  assert (Hlen : length (nodes σ1) = S (length (nodes σ)))
    by (unfold σ1; simpl; rewrite length_app; simpl; lia).
  destruct (arithmetic (type n)).
  - eexists. eexists. rewrite Hlen. split; [reflexivity|]. split.
    + simpl. apply list_lookup_insert_eq.
      rewrite recorded_length, length_app. simpl. lia.
    + done.
  - eexists. reflexivity.
Qed.

(** X15: an int node given to an arithmetic method of a node typed
    [float] or a vector type is wrapped: the operand of the new node is
    a new float node around the int node, it is this wrapper that
    records the new node as its user, the int node itself is left as it
    was, and the result has the type of the receiver. *)
Theorem arithmetic_wraps_int f op this n r o σ l4 l5 :
  (f, op) ∈ arithmeticMethods →
  nodes σ !! this = Some n →
  nodes σ !! r = Some o →
  isFloatNodeN n || isVectorNodeN n = true →
  isIntNodeN o = true →
  stack σ !! 4%nat = Some l4 →
  stack σ !! 5%nat = Some l5 →
  ∃ σ' node wrapper,
    f this (VNode r) σ = Done (S (length (nodes σ))) σ' ∧
    nodes σ' !! S (length (nodes σ)) = Some node ∧
    type node = type n ∧
    fields node = BinaryOperatorNode (Some op) this (length (nodes σ)) ∧
    nodes σ' !! length (nodes σ) = Some wrapper ∧
    type wrapper = Some "float" ∧
    fields wrapper = FloatNode (VNode r) ∧
    usedIn wrapper = [S (length (nodes σ))] ∧
    nodes σ' !! r = Some o.
Proof.
  intros Hf Hn Hr Hfv Hi H4 H5. rewrite (arithmeticMethods_unfold f op Hf).
  rewrite (bind_Done _ _ _ _ _ (enforceType_wrap this n r o σ l5 Hn Hr Hfv Hi H5)).
  set (w := mkNode (Some "float") false [] [] (Some (Str.trim l5)) None (FloatNode (VNode r))).
  set (σ1 := setNodes (λ ns, ns ++ [w]) σ).
  pose proof (lookup_lt_Some _ _ _ Hn) as Hlt.
  pose proof (lookup_lt_Some _ _ _ Hr) as Hltr.
  assert (Ha : nodes σ1 !! this = Some n) by (by apply lookup_app_l_Some).
  assert (Hb : nodes σ1 !! length (nodes σ) = Some w) by (by apply list_lookup_middle).
  assert (Hline : captureSrcLine false true σ1 = Done (Some (Str.trim l4)) σ1)
    by (by apply captureSrcLine_Done).
  assert (Hlen : length (nodes σ1) = S (length (nodes σ)))
    by (unfold σ1; simpl; rewrite length_app; simpl; lia).
  assert (Hne : this ≠ r).
  { intros ->. assert (n = o) as -> by congruence.
    unfold isFloatNodeN, isVectorNodeN, isIntNodeN, hasType in *.
    apply bool_decide_eq_true in Hi. rewrite Hi in Hfv. discriminate. }
  assert (Hprom : Spec.promotion (type n) (type w) = Spec.ResultType (type n)).
  { unfold Spec.promotion. simpl type. rewrite isVectorNodeN_type in Hfv.
    unfold isFloatNodeN, hasType in Hfv.
    destruct (bool_decide (type n = Some "float")) eqn:Ef.
    - apply bool_decide_eq_true in Ef. rewrite Ef. reflexivity.
    - simpl in Hfv. rewrite Hfv. reflexivity. }
  unfold new_BinaryOperatorNode.
  rewrite (new_BinaryNode_store σ1 this (length (nodes σ)) n w _ false _ Ha Hb Hline)
    by (intros m Hm; unfold operands; by rewrite Hm).
  rewrite Hprom, Hlen.
  eexists. eexists. exists (pushUsedIn (S (length (nodes σ))) w).
  split; [reflexivity|]. simpl.
  split; [apply list_lookup_insert_eq; rewrite recorded_length, length_app; simpl; lia|].
  split; [done|]. split; [done|].
  split.
  { rewrite list_lookup_insert_ne by lia. rewrite <- Hlen.
    rewrite (recorded_right (nodes σ1) this (length (nodes σ)) n w _ Hb).
    unfold rightOperand. rewrite decide_False by lia. by rewrite Hlen. }
  split; [done|]. split; [done|]. split; [done|].
  rewrite list_lookup_insert_ne by lia.
  apply recorded_other; [done|lia|]. by apply lookup_app_l_Some.
Qed.

(** X16: an arithmetic method of an int node given a node of a vector
    type throws the type error (nothing is wrapped on this side), and
    both nodes have recorded the node that was given up. *)
Theorem arithmetic_int_receiver_throws f op this n r o σ l4 :
  (f, op) ∈ arithmeticMethods →
  nodes σ !! this = Some n →
  nodes σ !! r = Some o →
  isIntNodeN n = true →
  isVectorNodeN o = true →
  stack σ !! 4%nat = Some l4 →
  ∃ σ' n' o',
    f this (VNode r) σ = Throws Incompatible σ' ∧
    nodes σ' !! this = Some n' ∧ usedIn n' = usedIn n ++ [length (nodes σ)] ∧
    nodes σ' !! r = Some o' ∧ usedIn o' = usedIn o ++ [length (nodes σ)].
Proof.
  intros Hf Hn Hr Hi Hv H4. rewrite (arithmeticMethods_unfold f op Hf).
  assert (Htypes : type n = Some "int" ∧ Spec.isVectorType (type o) = true).
  { split; [|by rewrite <- isVectorNodeN_type].
    by apply bool_decide_eq_true in Hi. }
  destruct Htypes as [Hti Htv].
  assert (Hne : this ≠ r).
  { intros ->. assert (n = o) as -> by congruence. rewrite Hti in Htv. discriminate. }
  rewrite (bind_Done _ _ _ _ _ (enforceType_pass this n r o σ Hn Hr
             ltac:(unfold isFloatNodeN, isVectorNodeN, hasType; rewrite Hti; reflexivity))).
  assert (Hline : captureSrcLine false true σ = Done (Some (Str.trim l4)) σ)
    by (by apply captureSrcLine_Done).
  unfold new_BinaryOperatorNode.
  rewrite (new_BinaryNode_store σ this r n o _ false _ Hn Hr Hline)
    by (intros m Hm; unfold operands; by rewrite Hm).
  assert (Hprom : Spec.promotion (type n) (type o) = Spec.TypeMismatch).
  { unfold Spec.promotion. rewrite Hti. unfold Spec.isVectorType, Spec.isType in *.
    destruct (type o) as [t|]; [|discriminate].
    repeat (case_bool_decide; simplify_eq; try discriminate); done. }
  rewrite Hprom.
  eexists. exists (pushUsedIn (length (nodes σ)) n), (pushUsedIn (length (nodes σ)) o).
  split; [reflexivity|]. simpl.
  split; [by apply recorded_left|]. split; [done|]. split; [|done].
  rewrite recorded_right by done. unfold rightOperand. by rewrite decide_False.
Qed.

Lemma operands_record_user_witness :
  ∃ σ',
    finalStore (new_BinaryOperatorNode (VNode 0) (VNode 0) (Some "*") false twoFloats) =
      Some σ' ∧
    usedIn <$> nodes σ' !! 0%nat = Some (withUser 2 0 0 []) ∧
    usedIn <$> nodes σ' !! 0%nat = Some (withUser 2 0 0 []) ∧
    ∀ r n, r ≠ 0%nat → r ≠ 0%nat → nodes twoFloats !! r = Some n → nodes σ' !! r = Some n.
Proof.
  exact (operands_record_user twoFloats 0 0 (nodeAt twoFloats 0) (nodeAt twoFloats 0)
           (Some "*") false (Some "at eval (sketch.js:4:18)") eq_refl eq_refl eq_refl).
Defined.

Lemma arithmetic_with_number_witness :
  ∃ σ' node,
    mult 1 (VNumber 2) twoFloats = Done 3%nat σ' ∧
    nodes σ' !! 3%nat = Some node ∧
    type node = Some "float" ∧
    fields node = BinaryOperatorNode (Some "*") 1 2.
Proof.
  refine (arithmetic_with_number mult "*" 1 (nodeAt twoFloats 1) 2 twoFloats
            "    at eval (sketch.js:4:18)" "    at eval (sketch.js:5:12)" _ eq_refl
            eq_refl eq_refl).
  unfold arithmeticMethods. do 2 right. left.
Defined.

Lemma arithmetic_wraps_int_witness :
  ∃ σ' node wrapper,
    add 1 (VNode 0) intAndFloat = Done 3%nat σ' ∧
    nodes σ' !! 3%nat = Some node ∧
    type node = Some "float" ∧
    fields node = BinaryOperatorNode (Some "+") 1 2 ∧
    nodes σ' !! 2%nat = Some wrapper ∧
    type wrapper = Some "float" ∧
    fields wrapper = FloatNode (VNode 0) ∧
    usedIn wrapper = [3%nat] ∧
    nodes σ' !! 0%nat = Some (nodeAt intAndFloat 0).
Proof.
  refine (arithmetic_wraps_int add "+" 1 (nodeAt intAndFloat 1) 0 (nodeAt intAndFloat 0)
            intAndFloat "    at eval (sketch.js:4:18)" "    at eval (sketch.js:5:12)"
            _ eq_refl eq_refl eq_refl eq_refl eq_refl eq_refl).
  unfold arithmeticMethods. left.
Defined.

Lemma arithmetic_int_receiver_throws_witness :
  ∃ σ' n' o',
    add 0 (VNode 1) intAndVector = Throws Incompatible σ' ∧
    nodes σ' !! 0%nat = Some n' ∧ usedIn n' = [] ++ [4%nat] ∧
    nodes σ' !! 1%nat = Some o' ∧ usedIn o' = [] ++ [4%nat].
Proof.
  refine (arithmetic_int_receiver_throws add "+" 0 (nodeAt intAndVector 0) 1
            (nodeAt intAndVector 1) intAndVector "    at eval (sketch.js:4:18)"
            _ eq_refl eq_refl eq_refl eq_refl eq_refl).
  unfold arithmeticMethods. left.
Defined.

(** ** Vectors and their members *)

Lemma addVectorMember_Done this c x v σ :
  nodes σ !! this = Some v →
  (let* r := new_FloatNode x true in updNode this (setMember c r)) σ =
    Done tt (setNodes (λ ns, <[this := setMember c (length ns) v]>
                               (ns ++ [memberOf x])) σ).
Proof.
  intros Hv.
  erewrite bind_Done by reflexivity.
  erewrite updNode_Done; [reflexivity|].
  simpl. by apply lookup_app_l_Some.
Qed.

Section VectorConstruction.

Variables (this : ref) (isInternal : bool) (line : option string).
Variable components : list string.

Abbreviation vec := (vectorWith None isInternal line components).

Lemma addVectorMembers_owns cs : ∀ xs done σ,
  NoDup (done.*1 ++ cs) →
  ownsMembers this vec done σ →
  ∃ σ', addVectorMembers this cs xs σ = Done tt σ' ∧
        ownsMembers this vec (done ++ zip cs xs) σ' ∧
        (∀ r n, r ≠ this → nodes σ !! r = Some n → nodes σ' !! r = Some n) ∧
        context σ' = context σ ∧ uniforms σ' = uniforms σ ∧
        functions σ' = functions σ ∧ stack σ' = stack σ.
Proof.
  induction cs as [|c cs IH]; intros xs done σ Hnodup Hown.
  { exists σ. simpl. rewrite app_nil_r. done. }
  destruct xs as [|x xs].
  { exists σ. simpl. rewrite app_nil_r. done. }
  destruct Hown as (ms & Hthis & Hin & Hout).
  pose proof (lookup_lt_Some _ _ _ Hthis) as Hlt.
  apply NoDup_app in Hnodup as (Hdone & Hfresh & Hcs).
  apply NoDup_cons in Hcs as [Hc Hcs].
  set (σ1 := setNodes (λ ns, <[this := setMember c (length ns) (vec ms)]>
                               (ns ++ [memberOf x])) σ).
  assert (Hown1 : ownsMembers this vec (done ++ [(c, x)]) σ1).
  { exists (<[c := length (nodes σ)]> ms). simpl. split; [|split].
    - rewrite list_lookup_insert_eq by (rewrite length_app; lia). reflexivity.
    - intros c' x' Hc'. apply elem_of_app in Hc' as [Hc'|Hc'].
      + assert (c' ≠ c).
        { intros ->. apply (Hfresh c); [|left].
          apply list_elem_of_fmap. by exists (c, x'). }
        destruct (Hin c' x' Hc') as (r & Hr & Hnode).
        exists r. rewrite lookup_insert_ne by done. split; [done|].
        rewrite list_lookup_insert_ne; [by apply lookup_app_l_Some|].
        intros <-. rewrite Hthis in Hnode. discriminate.
      + apply list_elem_of_singleton in Hc'. injection Hc' as -> ->.
        exists (length (nodes σ)). rewrite lookup_insert_eq. split; [done|].
        rewrite list_lookup_insert_ne by lia. by rewrite list_lookup_middle.
    - intros c' Hc'. rewrite fmap_app in Hc'. simpl in Hc'.
      rewrite lookup_insert_ne.
      + apply Hout. intros Hd. apply Hc', elem_of_app. by left.
      + intros <-. apply Hc', elem_of_app. right. by apply list_elem_of_singleton. }
  destruct (IH xs (done ++ [(c, x)]) σ1) as (σ2 & Hrun & Hown2 & Hold & Hframe);
    [|exact Hown1|].
  { rewrite fmap_app. simpl. apply NoDup_app. split; [|split; [|done]].
    - apply NoDup_app. split; [done|]. split; [|apply NoDup_singleton].
      intros c' Hc' Hc1. apply list_elem_of_singleton in Hc1. subst c'.
      apply (Hfresh c); [done|left].
    - intros c' Hc' Hcs'. apply elem_of_app in Hc' as [Hc'|Hc'].
      + apply (Hfresh c'); [done|by right].
      + apply list_elem_of_singleton in Hc'. by subst c'. }
  exists σ2. split; [|split; [|split]].
  - change (addVectorMembers this (c :: cs) (x :: xs))
      with ((let* r := new_FloatNode x true in updNode this (setMember c r)) ;;
            addVectorMembers this cs xs).
    by rewrite (bind_Done _ _ _ _ _ (addVectorMember_Done this c x _ σ Hthis)).
  - rewrite <- app_assoc in Hown2. exact Hown2.
  - intros r n Hne Hr. apply Hold; [done|]. simpl.
    rewrite list_lookup_insert_ne by done. by apply lookup_app_l_Some.
  - exact Hframe.
Qed.

End VectorConstruction.

Lemma NoDup_axes n : NoDup (take n axes).
Proof.
  apply sublist_NoDup with axes; [|apply sublist_take].
  unfold axes.
  repeat (apply NoDup_cons; split;
          [intros H; repeat (apply elem_of_cons in H as [H|H]; [discriminate|]);
           by apply elem_of_nil in H|]).
  apply NoDup_nil_2.
Qed.

(** X17: a new vector has one member for each of its first four values,
    named after the axis of its place and made of an internal float
    node around the value; values beyond the fourth get no member.
    Nothing else of the store changes. *)
Theorem VectorNode_members σ values ty isInternal line :
  captureSrcLine isInternal false σ = Done line σ →
  ∃ σ' members,
    new_VectorNode values ty isInternal σ = Done (length (nodes σ)) σ' ∧
    nodes σ' !! length (nodes σ) =
      Some (vectorWith ty isInternal line (take (length values) axes) members) ∧
    (∀ i c x, axes !! i = Some c → values !! i = Some x →
       ∃ r, members !! c = Some r ∧ nodes σ' !! r = Some (memberOf x)) ∧
    (∀ c, c ∉ take (length values) axes → members !! c = None) ∧
    (∀ r n, nodes σ !! r = Some n → nodes σ' !! r = Some n) ∧
    context σ' = context σ ∧ uniforms σ' = uniforms σ ∧
    functions σ' = functions σ.
Proof.
  intros Hline. unfold new_VectorNode.
  rewrite (bind_Done _ _ _ _ _ Hline).
  erewrite bind_Done by reflexivity.
  set (cs := take (length values) axes).
  set (σ1 := setNodes _ σ).
  set (this := length (nodes σ)).
  assert (Hown : ownsMembers this (vectorWith None isInternal line cs) [] σ1).
  { exists ∅. split; [simpl; by rewrite list_lookup_middle|]. split.
    - intros c x Hc. by apply elem_of_nil in Hc.
    - intros c _. apply lookup_empty. }
  destruct (addVectorMembers_owns this isInternal line cs cs values [] σ1)
    as (σ2 & Hrun & (ms & Hthis & Hin & Hout) & Hold & Hctx & Hu & Hf & Hs);
    [apply NoDup_axes|exact Hown|].
  rewrite (bind_Done _ _ _ _ _ Hrun).
  rewrite (bind_Done _ _ _ _ _ (updNode_Done _ _ _ _ Hthis)).
  exists (setNodes (λ ns, <[this := setType ty (vectorWith None isInternal line cs ms)]> ns) σ2), ms.
  pose proof (lookup_lt_Some _ _ _ Hthis) as Hlt.
  split; [reflexivity|]. simpl. split; [|split; [|split; [|split]]].
  - by rewrite list_lookup_insert_eq.
  - intros i c x Hc Hx.
    pose proof (lookup_lt_Some _ _ _ Hx) as Hi.
    destruct (Hin c x) as (r & Hr & Hnode).
    { apply list_elem_of_lookup_2 with i. apply lookup_zip_Some.
      split; [|done]. unfold cs. by rewrite lookup_take_lt. }
    exists r. split; [done|].
    rewrite list_lookup_insert_ne; [done|].
    intros <-. rewrite Hthis in Hnode. discriminate.
  - intros c Hc. apply Hout. simpl.
    rewrite fst_zip; [done|]. unfold cs. rewrite length_take. lia.
  - intros r n Hr.
    pose proof (lookup_lt_Some _ _ _ Hr) as Hr'.
    rewrite list_lookup_insert_ne by (unfold this; lia).
    apply Hold; [unfold this; lia|]. simpl. by apply lookup_app_l_Some.
  - done.
Qed.

Lemma VectorNode_members_witness :
  ∃ σ' members,
    new_VectorNode [VNumber 1; VNumber 2] (Some "vec2") false emptyStore =
      Done (length (nodes emptyStore)) σ' ∧
    nodes σ' !! length (nodes emptyStore) =
      Some (vectorWith (Some "vec2") false (Some "at eval (sketch.js:5:12)")
              (take (length [VNumber 1; VNumber 2]) axes) members) ∧
    (∀ i c x, axes !! i = Some c → [VNumber 1; VNumber 2] !! i = Some x →
       ∃ r, members !! c = Some r ∧ nodes σ' !! r = Some (memberOf x)) ∧
    (∀ c, c ∉ take (length [VNumber 1; VNumber 2]) axes → members !! c = None) ∧
    (∀ r n, nodes emptyStore !! r = Some n → nodes σ' !! r = Some n) ∧
    context σ' = context emptyStore ∧ uniforms σ' = uniforms emptyStore ∧
    functions σ' = functions emptyStore.
Proof.
  apply (VectorNode_members emptyStore [VNumber 1; VNumber 2] (Some "vec2") false
           (Some "at eval (sketch.js:5:12)")).
  vm_compute. reflexivity.
Defined.

(** ** What the nodes render as *)

Lemma toGLSLBase_inline fuel this n σ :
  nodes σ !! this = Some n →
  useTempVar n = false →
  toGLSLBase (S fuel) this σ = toGLSL (toGLSLBase fuel) this σ.
Proof.
  intros Hn Huse. simpl. unfold toGLSLBase_body.
  by rewrite (bind_Done _ _ _ _ _ (getNode_Done _ _ _ Hn)), Huse.
Qed.

Lemma useTempVar_internal n : isInternal n = true → useTempVar n = false.
Proof. intros H. unfold useTempVar. by rewrite H. Qed.

Lemma internal_float_renders fuel r m q text σ :
  nodes σ !! r = Some m →
  isInternal m = true →
  fields m = FloatNode (VNumber q) →
  Num.toFixed4 q = Some text →
  toGLSLBase (S fuel) r σ = Done text σ.
Proof.
  intros Hm Hi Hf Ht.
  rewrite (toGLSLBase_inline fuel r m σ Hm (useTempVar_internal m Hi)).
  unfold toGLSL. rewrite (bind_Done _ _ _ _ _ (getNode_Done _ _ _ Hm)), Hf.
  simpl. by rewrite Ht.
Qed.

Lemma glslArgs_literals fuel members σ cs texts :
  Forall2 (literalMember σ members) cs texts →
  VectorNode_glslArgs (toGLSLBase (S fuel)) members cs σ =
    Done (Str.join ", " texts) σ.
Proof.
  induction 1 as [|c text cs texts (r & m & q & Hr & Hm & Hi & Hf & Ht) Hrest IH];
    [reflexivity|].
  cbn [VectorNode_glslArgs]. rewrite Hr.
  rewrite (bind_Done _ _ _ _ _ (internal_float_renders fuel r m q text σ Hm Hi Hf Ht)).
  rewrite (bind_Done _ _ _ _ _ IH). unfold ret. f_equal.
  destruct Hrest as [|c' text' cs texts _ _]; [|reflexivity].
  change (text +:+ "" +:+ "" = text). by rewrite !append_empty_r.
Qed.

(** X18: a vector whose members are number literals is written as its
    type followed by the members in the order of the components, each
    with four decimals, separated by a comma and a space and enclosed
    in parentheses; the store stays as it is. *)
Theorem VectorNode_renders fuel this n cs members texts σ :
  nodes σ !! this = Some n →
  fields n = VectorNode cs members →
  Forall2 (literalMember σ members) cs texts →
  toGLSL (toGLSLBase (S fuel)) this σ =
    Done (toStr (type n) +:+ "(" +:+ Str.join ", " texts +:+ ")") σ.
Proof.
  intros Hn Hf Hm. unfold toGLSL.
  rewrite (bind_Done _ _ _ _ _ (getNode_Done _ _ _ Hn)), Hf.
  unfold VectorNode_toGLSL.
  by rewrite (bind_Done _ _ _ _ _ (glslArgs_literals fuel members σ cs texts Hm)).
Qed.

Lemma VectorNode_renders_witness :
  toGLSL (toGLSLBase 1) 0 vectorUsedTwice =
    Done (toStr (type (nodeAt vectorUsedTwice 0)) +:+ "(" +:+
          Str.join ", " ["1.0000"; "2.0000"; "3.0000"] +:+ ")") vectorUsedTwice.
Proof.
  apply (VectorNode_renders 0 0%nat (nodeAt vectorUsedTwice 0) ["x"; "y"; "z"]
           (list_to_map [("x", 1%nat); ("y", 2%nat); ("z", 3%nat)])).
  - vm_compute. reflexivity.
  - vm_compute. reflexivity.
  - repeat (apply Forall2_cons; split);
      [exists 1%nat, (nodeAt vectorUsedTwice 1), 1%Q
      |exists 2%nat, (nodeAt vectorUsedTwice 2), 2%Q
      |exists 3%nat, (nodeAt vectorUsedTwice 3), 3%Q
      |apply Forall2_nil_2]; repeat split; vm_compute; reflexivity.
Defined.

(** X19: a new variable is written as its name and never hoisted, and
    each accessor that it owns is written as the name, a point and the
    axis; none of these renderings changes the store. *)
Theorem VariableNode_renders σ name ty isInternal line :
  captureSrcLine isInternal false σ = Done line σ →
  ∃ σ' members,
    new_VariableNode (VString name) ty isInternal σ = Done (length (nodes σ)) σ' ∧
    nodes σ' !! length (nodes σ) =
      Some (variableWith (VString name) ty isInternal line members) ∧
    (∀ fuel, toGLSLBase (S fuel) (length (nodes σ)) σ' = Done name σ') ∧
    (∀ c, c ∈ options ty →
       ∃ r, members !! c = Some r ∧
            ∀ fuel, toGLSLBase (S fuel) r σ' = Done (name +:+ "." +:+ c) σ').
Proof.
  intros Hline.
  destruct (new_VariableNode_Done σ (VString name) ty isInternal line Hline)
    as (σ' & ms & Hrun & Hthis & Hin & _ & _).
  exists σ', ms. split; [done|]. split; [done|]. split.
  - intros fuel. rewrite (toGLSLBase_inline fuel _ _ σ' Hthis).
    + unfold toGLSL. by rewrite (bind_Done _ _ _ _ _ (getNode_Done _ _ _ Hthis)).
    + unfold useTempVar, isVariableNodeN. simpl. by rewrite orb_true_r.
  - intros c Hc. destruct (Hin c Hc) as (r & Hr & Hnode).
    exists r. split; [done|]. intros fuel.
    rewrite (toGLSLBase_inline fuel _ _ σ' Hnode); [|done].
    unfold toGLSL. rewrite (bind_Done _ _ _ _ _ (getNode_Done _ _ _ Hnode)).
    change (ComponentNode_toGLSL (VNode (length (nodes σ))) (VString c) σ' =
            Done (name +:+ "." +:+ c) σ').
    unfold ComponentNode_toGLSL, bind. by rewrite (getNode_Done _ _ _ Hthis).
Qed.

Lemma VariableNode_renders_witness :
  ∃ σ' members,
    new_VariableNode (VString "vTexCoord") (Some "vec2") false emptyStore =
      Done (length (nodes emptyStore)) σ' ∧
    nodes σ' !! length (nodes emptyStore) =
      Some (variableWith (VString "vTexCoord") (Some "vec2") false
              (Some "at eval (sketch.js:5:12)") members) ∧
    (∀ fuel, toGLSLBase (S fuel) (length (nodes emptyStore)) σ' = Done "vTexCoord" σ') ∧
    (∀ c, c ∈ options (Some "vec2") →
       ∃ r, members !! c = Some r ∧
            ∀ fuel, toGLSLBase (S fuel) r σ' = Done ("vTexCoord" +:+ "." +:+ c) σ').
Proof.
  apply (VariableNode_renders emptyStore "vTexCoord" (Some "vec2") false
           (Some "at eval (sketch.js:5:12)")).
  vm_compute. reflexivity.
Defined.

Lemma isIntNode_typeValue t σ : isIntNode (typeValue t) σ = Done false σ.
Proof. by destruct t. Qed.

(** X20: around another node an int node always writes the cast
    [int(...)], also around a node of type [int]; a float node writes
    the cast [float(...)] unless the node inside is of type [float]. *)
Theorem scalar_around_node fuel this n r code σ σ' :
  nodes σ !! this = Some n →
  toGLSLBase fuel r σ = Done code σ' →
  (fields n = IntNode (VNode r) →
   toGLSL (toGLSLBase fuel) this σ = Done ("int(" +:+ code +:+ ")") σ') ∧
  (fields n = FloatNode (VNode r) →
   ∃ m, nodes σ !! r = Some m ∧
        toGLSL (toGLSLBase fuel) this σ =
          Done (if isFloatNodeN m then code else "float(" +:+ code +:+ ")") σ').
Proof.
  intros Hn Hcode.
  assert (Hm : ∃ m, nodes σ !! r = Some m).
  { destruct fuel as [|fuel]; [discriminate|]. simpl in Hcode.
    unfold toGLSLBase_body in Hcode.
    apply bind_Done_inv in Hcode as (m & σ0 & Hm & _).
    unfold getNode in Hm. destruct (nodes σ !! r) as [m0|]; [by exists m0|discriminate]. }
  destruct Hm as (m & Hm).
  destruct (renders_toGLSLBase fuel r σ code σ' Hcode) as ([_ N] & _).
  destruct (N r m Hm) as (m' & Hm' & Ht & _).
  split; intros Hf.
  - unfold toGLSL. rewrite (bind_Done _ _ _ _ _ (getNode_Done _ _ _ Hn)), Hf.
    unfold IntNode_toGLSL. rewrite (bind_Done _ _ _ _ _ Hcode).
    rewrite (bind_Done _ _ _ _ _ (getNode_Done _ _ _ Hm')).
    by rewrite (bind_Done _ _ _ _ _ (isIntNode_typeValue _ _)).
  - exists m. split; [done|].
    unfold toGLSL. rewrite (bind_Done _ _ _ _ _ (getNode_Done _ _ _ Hn)), Hf.
    unfold FloatNode_toGLSL. rewrite (bind_Done _ _ _ _ _ Hcode).
    unfold isFloatNode, onNode, bind. rewrite (getNode_Done _ _ _ Hm').
    unfold ret, isFloatNodeN, hasType. by rewrite Ht.
Qed.

(** ** What the construction of nodes changes *)

Lemma built_refl σ : built σ σ.
Proof. by repeat split. Qed.

Lemma built_trans σ1 σ2 σ3 : built σ1 σ2 → built σ2 σ3 → built σ1 σ3.
Proof.
  intros (A1 & A2 & A3 & A4 & A5) (B1 & B2 & B3 & B4 & B5).
  repeat split; try congruence. lia.
Qed.

Lemma builds_ret {A} (a : A) : builds (ret a).
Proof. intros σ σ' [= <-]. apply built_refl. Qed.

Lemma builds_throw {A} e : builds (@throw A e).
Proof. intros σ σ' [= <-]. apply built_refl. Qed.

Lemma builds_stuck {A} why : builds (@stuck A why).
Proof. intros σ σ' [=]. Qed.

Lemma builds_get : builds get.
Proof. intros σ σ' [= <-]. apply built_refl. Qed.

Lemma builds_getNode r : builds (getNode r).
Proof.
  intros σ σ'. unfold getNode. destruct (nodes σ !! r); intros [=]. subst.
  apply built_refl.
Qed.

Lemma builds_updNode r f : builds (updNode r f).
Proof.
  intros σ σ'. unfold updNode, bind, getNode, update.
  destruct (nodes σ !! r); intros [=]. subst.
  repeat split. simpl. by rewrite length_insert.
Qed.

Lemma builds_alloc n : builds (alloc n).
Proof.
  intros σ σ' [= <-]. repeat split. simpl. rewrite length_app. lia.
Qed.

Lemma builds_liftOption {A} why (o : option A) : builds (liftOption why o).
Proof. destruct o; [apply builds_ret|apply builds_stuck]. Qed.

Lemma builds_bind {A B} (m : M A) (k : A → M B) :
  builds m → (∀ a, builds (k a)) → builds (bind m k).
Proof.
  intros Hm Hk σ σ' H. unfold bind in H.
  destruct (m σ) as [a σ1|e σ1| |] eqn:E; try discriminate.
  - apply built_trans with σ1; [by apply Hm; rewrite E|by apply (Hk a)].
  - injection H as <-. apply Hm. by rewrite E.
Qed.

Lemma builds_captureSrcLine isInternal binary : builds (captureSrcLine isInternal binary).
Proof.
  unfold captureSrcLine. destruct isInternal; [apply builds_ret|].
  intros σ σ'. unfold bind, get.
  destruct (stack σ !! _); intros [= <-]; apply built_refl.
Qed.

Ltac builds_step :=
  first
    [ apply builds_ret | apply builds_throw | apply builds_stuck | apply builds_get
    | apply builds_getNode | apply builds_updNode | apply builds_alloc
    | apply builds_liftOption | apply builds_captureSrcLine
    | assumption
    | apply builds_bind; [|intros ?]
    | match goal with
      | |- builds (if ?b then _ else _) => destruct b
      | |- builds (match ?x with _ => _ end) => destruct x
      end ].

Ltac builds := repeat builds_step.

Lemma builds_new_IntNode x isInternal : builds (new_IntNode x isInternal).
Proof. unfold new_IntNode. builds. Qed.

Lemma builds_new_FloatNode x isInternal : builds (new_FloatNode x isInternal).
Proof. unfold new_FloatNode. builds. Qed.

Lemma builds_new_FunctionCallNode name args ty isInternal :
  builds (new_FunctionCallNode name args ty isInternal).
Proof. unfold new_FunctionCallNode. builds. Qed.

Lemma builds_new_ComponentNode parent c isInternal :
  builds (new_ComponentNode parent c isInternal).
Proof. unfold new_ComponentNode. builds. Qed.

Lemma builds_addVectorMembers this cs : ∀ xs, builds (addVectorMembers this cs xs).
Proof.
  induction cs as [|c cs IH]; intros [|x xs]; simpl; try apply builds_ret.
  apply builds_bind; [apply builds_new_FloatNode|]. intros r.
  apply builds_bind; [apply builds_updNode|intros _; apply IH].
Qed.

Lemma builds_new_VectorNode values ty isInternal :
  builds (new_VectorNode values ty isInternal).
Proof.
  unfold new_VectorNode.
  apply builds_bind; [apply builds_captureSrcLine|]. intros line.
  apply builds_bind; [apply builds_alloc|]. intros this.
  apply builds_bind; [apply builds_addVectorMembers|]. intros _. builds.
Qed.

Lemma builds_addComponents this cs : builds (addComponents this cs).
Proof.
  induction cs as [|c cs IH]; simpl; [apply builds_ret|].
  apply builds_bind; [|intros _; exact IH].
  unfold addComponent.
  apply builds_bind; [apply builds_new_ComponentNode|intros r; apply builds_updNode].
Qed.

Lemma builds_new_VariableNode name ty isInternal :
  builds (new_VariableNode name ty isInternal).
Proof.
  unfold new_VariableNode, autoAddVectorComponents.
  apply builds_bind; [apply builds_captureSrcLine|]. intros line.
  apply builds_bind; [apply builds_alloc|]. intros this.
  apply builds_bind; [|intros _; apply builds_ret].
  apply builds_bind; [apply builds_getNode|intros n; apply builds_addComponents].
Qed.

Lemma builds_determineType this : builds (determineType this).
Proof. unfold determineType. builds. Qed.

Lemma builds_new_BinaryNode mkFields a b isInternal :
  builds (new_BinaryNode mkFields a b isInternal).
Proof.
  unfold new_BinaryNode.
  apply builds_bind; [apply builds_captureSrcLine|]. intros line.
  destruct a as [|s|q|ra]; try apply builds_throw.
  apply builds_bind; [apply builds_alloc|]. intros this.
  apply builds_bind; [apply builds_updNode|]. intros _.
  destruct b as [|s|q|rb]; try apply builds_throw.
  apply builds_bind; [apply builds_updNode|]. intros _.
  apply builds_bind; [apply builds_determineType|]. intros t.
  apply builds_bind; [apply builds_updNode|intros _; apply builds_ret].
Qed.

Lemma builds_constructSame n other : builds (constructSame n other).
Proof.
  unfold constructSame, new_BinaryOperatorNode, new_ModulusNode.
  destruct (fields n);
    [apply builds_new_IntNode | apply builds_new_FloatNode | |
     apply builds_new_FunctionCallNode | apply builds_new_VariableNode |
     apply builds_new_ComponentNode | apply builds_new_BinaryNode ..].
  destruct other; try apply builds_new_VectorNode;
    (apply builds_bind; [apply builds_captureSrcLine|intros _; apply builds_throw]).
Qed.

Lemma builds_enforceType this other : builds (enforceType this other).
Proof.
  unfold enforceType. apply builds_bind; [apply builds_getNode|]. intros n.
  destruct other as [|s|q|r]; try apply builds_constructSame.
  - destruct (isIntNodeN n); [apply builds_new_IntNode|apply builds_new_FloatNode].
  - apply builds_bind; [apply builds_getNode|]. intros o.
    destruct (_ && _); [apply builds_new_FloatNode|apply builds_ret].
Qed.

(** X21: whatever their arguments, and whether they return or throw,
    the methods and functions that make nodes leave the context of the
    renderer, the tables of uniforms and of functions and the stack as
    they are, and remove no node. *)
Theorem node_construction_builds :
  (∀ this other,
     builds (add this other) ∧ builds (sub this other) ∧ builds (mult this other) ∧
     builds (div this other) ∧ builds (mod_ this other)) ∧
  (∀ this, builds (sin this) ∧ builds (cos this) ∧ builds (radians this) ∧
           builds (abs this) ∧ builds (Unwritten.ceil this)) ∧
  (∀ x y z w,
     builds (createVector2 x y) ∧ builds (createVector3 x y z) ∧
     builds (createVector4 x y z w) ∧ builds (createFloat x) ∧ builds (createInt x)) ∧
  builds instanceID ∧ builds uvCoords ∧ builds discard.
Proof.
  split; [|split; [|split; [|split; [|split]]]].
  - intros this other. unfold add, sub, mult, div, mod_, new_BinaryOperatorNode,
      new_ModulusNode.
    split; [|split; [|split; [|split]]];
      (apply builds_bind; [apply builds_enforceType|intros b; apply builds_new_BinaryNode]).
  - intros this. unfold sin, cos, radians, abs, Unwritten.ceil.
    split; [|split; [|split; [|split]]]; try apply builds_new_FunctionCallNode.
    apply builds_bind; [apply builds_getNode|intros n; apply builds_new_FunctionCallNode].
  - intros x y z w. unfold createVector2, createVector3, createVector4, createFloat, createInt.
    split; [|split; [|split; [|split]]];
      first [apply builds_new_VectorNode|apply builds_new_FloatNode
            |apply builds_new_IntNode].
  - apply builds_new_VariableNode.
  - apply builds_new_VariableNode.
  - apply builds_new_VariableNode.
Qed.

Lemma scalar_around_node_witness :
  (fields (nodeAt intAroundInt 1) = IntNode (VNode 0) →
   toGLSL (toGLSLBase 1) 1 intAroundInt = Done ("int(" +:+ "1" +:+ ")") intAroundInt) ∧
  (fields (nodeAt intAroundInt 1) = FloatNode (VNode 0) →
   ∃ m, nodes intAroundInt !! 0%nat = Some m ∧
        toGLSL (toGLSLBase 1) 1 intAroundInt =
          Done (if isFloatNodeN m then "1" else "float(" +:+ "1" +:+ ")") intAroundInt).
Proof.
  apply (scalar_around_node 1 1%nat (nodeAt intAroundInt 1) 0%nat "1"
           intAroundInt intAroundInt); vm_compute; reflexivity.
Defined.

(** ** Uniforms *)

Lemma indexOf_tail a c s :
  Str.indexOf a (String c s) = (-1)%Z → Str.indexOf a s = (-1)%Z ∧ a ≠ c.
Proof.
  simpl. destruct (Ascii.eqb a c) eqn:E; [discriminate|].
  apply Ascii.eqb_neq in E.
  destruct (indexOf_absent_lt a s) as [H|H]; [done|].
  destruct (Str.indexOf a s <? 0)%Z eqn:E'; [apply Z.ltb_lt in E'|]; lia.
Qed.

Lemma key_inj a t1 : ∀ t2 n1 n2,
  Str.indexOf a t1 = (-1)%Z → Str.indexOf a t2 = (-1)%Z →
  t1 +:+ String a n1 = t2 +:+ String a n2 → t1 = t2 ∧ n1 = n2.
Proof.
  induction t1 as [|c t1 IH]; intros [|d t2] n1 n2 H1 H2 H.
  - by injection H as ->.
  - apply indexOf_tail in H2 as [_ H2]. injection H as Hc _. by destruct H2.
  - apply indexOf_tail in H1 as [_ H1]. injection H as Hc _. by destruct H1.
  - apply indexOf_tail in H1 as [H1 _]. apply indexOf_tail in H2 as [H2 _].
    change (String c (t1 +:+ String a n1) = String d (t2 +:+ String a n2)) in H.
    injection H as -> H. destruct (IH t2 n1 n2 H1 H2 H) as [-> ->]. done.
Qed.

Lemma uniformFns_no_space ty : ty ∈ uniformFns.*1 → Str.indexOf " " ty = (-1)%Z.
Proof.
  unfold uniformFns. simpl. intros H.
  repeat (apply elem_of_cons in H as [->|H]; [reflexivity|]).
  by apply elem_of_nil in H.
Qed.

Lemma uniform_store ty name v σ σ' :
  finalStore (uniform ty name v σ) = Some σ' →
  uniforms σ' = <[ty +:+ " " +:+ name := v]> (uniforms σ) ∧
  functions σ' = functions σ ∧ context σ' = context σ.
Proof.
  intros H.
  destruct (builds_new_VariableNode (VString name) (Some ty) false _ _ H)
    as (C & U & F & _).
  by rewrite U, F, C.
Qed.

(** X22: a uniform declarator writes the default value under the key
    made of its type, a space and the name, whether or not the variable
    node can then be made.  Of two declarations the second replaces the
    first only when type and name are both the same; every other key of
    the table, the functions and the context stay as they are. *)
Theorem uniform_declarations ty1 ty2 n1 n2 v1 v2 σ σ1 σ2 :
  ty1 ∈ uniformFns.*1 → ty2 ∈ uniformFns.*1 →
  finalStore (uniform ty1 n1 v1 σ) = Some σ1 →
  finalStore (uniform ty2 n2 v2 σ1) = Some σ2 →
  uniforms σ2 !! (ty1 +:+ " " +:+ n1) =
    Some (if decide (ty1 = ty2 ∧ n1 = n2) then v2 else v1) ∧
  uniforms σ2 !! (ty2 +:+ " " +:+ n2) = Some v2 ∧
  (∀ k, k ≠ ty1 +:+ " " +:+ n1 → k ≠ ty2 +:+ " " +:+ n2 →
        uniforms σ2 !! k = uniforms σ !! k) ∧
  functions σ2 = functions σ ∧ context σ2 = context σ.
Proof.
  intros Ht1 Ht2 H1 H2.
  apply uniform_store in H1 as (U1 & F1 & C1).
  apply uniform_store in H2 as (U2 & F2 & C2).
  rewrite U2, U1, F2, F1, C2, C1.
  split; [|split; [apply lookup_insert_eq|split; [|done]]].
  - destruct (decide (ty1 = ty2 ∧ n1 = n2)) as [[-> ->]|Hne].
    + apply lookup_insert_eq.
    + rewrite lookup_insert_ne; [apply lookup_insert_eq|].
      intros Heq. apply Hne. symmetry in Heq.
      change (ty1 +:+ String " " n1 = ty2 +:+ String " " n2) in Heq.
      by apply (key_inj " " ty1 ty2 n1 n2);
        [apply uniformFns_no_space|apply uniformFns_no_space|].
  - intros k Hk1 Hk2. by rewrite !lookup_insert_ne.
Qed.

Lemma uniform_declarations_witness :
  uniforms twoUniforms !! ("float" +:+ " " +:+ "time") =
    Some (if decide ("float" = "vec2" ∧ "time" = "time") then VUndefined else VNumber 0) ∧
  uniforms twoUniforms !! ("vec2" +:+ " " +:+ "time") = Some VUndefined ∧
  (∀ k, k ≠ "float" +:+ " " +:+ "time" → k ≠ "vec2" +:+ " " +:+ "time" →
        uniforms twoUniforms !! k = uniforms emptyStore !! k) ∧
  functions twoUniforms = functions emptyStore ∧
  context twoUniforms = context emptyStore.
Proof.
  apply (uniform_declarations "float" "vec2" "time" "time" (VNumber 0) VUndefined
           emptyStore oneUniform twoUniforms).
  - apply (bool_decide_unpack _). vm_compute. reflexivity.
  - apply (bool_decide_unpack _). vm_compute. reflexivity.
  - vm_compute. reflexivity.
  - vm_compute. reflexivity.
Defined.

(** ** Hooks made of nodes *)





(** ** Calls of functions of one argument *)

(** X24: [sin], [cos] and [radians] make a float node, and [abs] a node
    of the type of its receiver, that calls the function of that name on
    the receiver; the receiver does not record the new node as a user;
    the new node is not hoisted, and it is written as the name followed
    by the text of the receiver in parentheses. *)
Theorem call_methods f name ty this n l σ :
  (f, name, ty) ∈ callMethods →
  nodes σ !! this = Some n →
  stack σ !! 5%nat = Some l →
  let call := mkNode (ty n) false [] [] (Some (Str.trim l)) None
                     (FunctionCallNode (VString name) (ArgsValue (VNode this))) in
  let σ' := setNodes (λ ns, ns ++ [call]) σ in
  f this σ = Done (length (nodes σ)) σ' ∧
  ∀ fuel code σ'',
    toGLSLBase fuel this σ' = Done code σ'' →
    toGLSLBase (S fuel) (length (nodes σ)) σ' =
      Done (name +:+ "(" +:+ code +:+ ")") σ''.
Proof.
  intros Hin Hn Hl call σ'.
  assert (Hline : captureSrcLine false false σ = Done (Some (Str.trim l)) σ).
  { unfold captureSrcLine, bind, get. by rewrite Hl. }
  split.
  - unfold callMethods in Hin.
    repeat (apply elem_of_cons in Hin as [Hin|Hin];
            [injection Hin as -> -> ->;
             unfold sin, cos, radians, abs, new_FunctionCallNode;
             rewrite ?(bind_Done _ _ _ _ _ (getNode_Done _ _ _ Hn));
             by rewrite (bind_Done _ _ _ _ _ Hline)|]).
    by apply elem_of_nil in Hin.
  - intros fuel code σ'' Hcode.
    assert (Hcall : nodes σ' !! length (nodes σ) = Some call)
      by (simpl; by rewrite list_lookup_middle).
    rewrite (toGLSLBase_inline fuel _ call σ' Hcall).
    + unfold toGLSL. rewrite (bind_Done _ _ _ _ _ (getNode_Done _ _ _ Hcall)).
      change (fields call) with (FunctionCallNode (VString name) (ArgsValue (VNode this))).
      cbv iota. unfold FunctionCallNode_toGLSL, deconstructArgs, callToGLSLBase.
      unfold bind at 1. simpl template. unfold ret at 1.
      unfold bind. by rewrite Hcode.
    + unfold useTempVar, isBinaryOperatorNodeN, isVariableNodeN. simpl.
      by destruct (isVectorNodeN call).
Qed.

Lemma call_methods_witness :
  let call := mkNode (Some "float") false [] [] (Some (Str.trim "    at eval (sketch.js:5:12)"))
                     None (FunctionCallNode (VString "sin") (ArgsValue (VNode 0))) in
  let σ' := setNodes (λ ns, ns ++ [call]) twoFloats in
  sin 0 twoFloats = Done (length (nodes twoFloats)) σ' ∧
  ∀ fuel code σ'',
    toGLSLBase fuel 0%nat σ' = Done code σ'' →
    toGLSLBase (S fuel) (length (nodes twoFloats)) σ' =
      Done ("sin" +:+ "(" +:+ code +:+ ")") σ''.
Proof.
  apply (call_methods sin "sin" (λ _, Some "float") 0%nat (nodeAt twoFloats 0)
           "    at eval (sketch.js:5:12)" twoFloats).
  - unfold callMethods. apply elem_of_cons. by left.
  - vm_compute. reflexivity.
  - vm_compute. reflexivity.
Defined.

(** ** More on the type rules *)

Lemma vector_not_float n : isVectorNodeN n = true → isFloatNodeN n = false.
Proof.
  intros H. unfold isFloatNodeN, hasType. apply bool_decide_eq_false_2. intros Hf.
  unfold isVectorNodeN, hasType in H. rewrite Hf in H. vm_compute in H. discriminate.
Qed.

Lemma hasType_type t n : hasType t n = true → type n = Some t.
Proof. unfold hasType. apply bool_decide_eq_true_1. Qed.

(** X25: the type of a binary node does not depend on the order of its
    operands, and when there is one it is the type of one of them. *)
Theorem determineTypeOf_symmetric a b :
  determineTypeOf a b = determineTypeOf b a ∧
  (∀ t, determineTypeOf a b = inl t → t = type a ∨ t = type b).
Proof.
  unfold determineTypeOf.
  destruct (decide (type a = type b)) as [e|Hne].
  { rewrite !bool_decide_eq_true_2 by done. split; [by rewrite e|].
    intros t [= <-]. by left. }
  rewrite (bool_decide_eq_false_2 (type a = type b)) by done.
  rewrite (bool_decide_eq_false_2 (type b = type a)) by done.
  destruct (isVectorNodeN a && isFloatNodeN b) eqn:E1.
  { apply andb_true_iff in E1 as [Va Fb].
    rewrite (vector_not_float a Va), andb_false_r.
    split; [done|]. intros t [= <-]. by left. }
  destruct (isVectorNodeN b && isFloatNodeN a) eqn:E2.
  { split; [done|]. intros t [= <-]. by right. }
  rewrite (andb_comm (isFloatNodeN b) (isIntNodeN a)).
  rewrite (andb_comm (isIntNodeN b) (isFloatNodeN a)).
  rewrite (orb_comm (isIntNodeN a && isFloatNodeN b)).
  split; [done|].
  destruct (_ || _) eqn:E3; [|discriminate].
  intros t [= <-]. apply orb_true_iff in E3 as [E3|E3];
    apply andb_true_iff in E3 as [H1 H2].
  - left. symmetry. by apply hasType_type.
  - right. symmetry. by apply hasType_type.
Qed.
